(** * Show controller, playlists and shots of the Mission Pinball Framework

    A shallow embedding of [mpf/core/show_controller.py] and
    [mpf/devices/shot.py].  Python objects are records kept in stores that
    are indexed by object identity; calls into collaborators whose classes
    live in other files (lights, LEDs, coils, the event bus, [Show]) are
    appended to a log, in the order in which the code performs them. *)

From Stdlib Require Import ZArith QArith Qcanon Floats Lia.
From stdpp Require Import base decidable option list functions sorting gmap strings.

Local Open Scope Z_scope.

(** ** Python list primitives *)

Module Py.

(** [l[i]] with Python's negative indices; [None] is [IndexError]. *)
Definition index {A} (l : list A) (i : Z) : option A :=
  if 0 <=? i then l !! Z.to_nat i
  else if 0 <=? Z.of_nat (length l) + i then l !! Z.to_nat (Z.of_nat (length l) + i)
  else None.

(** [l.remove(x)] for an [x] that occurs in [l]: the first element equal to
    [x] goes. *)
Fixpoint remove `{EqDecision A} (x : A) (l : list A) : list A :=
  match l with
  | [] => []
  | y :: t => if decide (x = y) then t else y :: remove x t
  end.

(** [for item in l: if cond(item): l.remove(item)].  The list iterator keeps
    an index into the list being mutated and stops once the index is no
    longer smaller than the current length; [n] bounds the number of
    iterations. *)
Fixpoint remove_while_iterating `{EqDecision A} (cond : A → bool)
    (n : nat) (i : nat) (l : list A) : list A :=
  match n with
  | O => l
  | S n' =>
      match l !! i with
      | None => l
      | Some item =>
          remove_while_iterating cond n' (S i)
            (if cond item then remove item l else l)
      end
  end.

(** The whole loop: the index starts at 0, and [length l] iterations are
    always enough (see [remove_while_iterating_fuel]). *)
Definition for_remove `{EqDecision A} (cond : A → bool) (l : list A) : list A :=
  remove_while_iterating cond (length l) 0 l.

(** [zip(a, b)]. *)
Fixpoint zip {A B} (a : list A) (b : list B) : list (A * B) :=
  match a, b with
  | x :: a', y :: b' => (x, y) :: zip a' b'
  | _, _ => []
  end.

(** The characters of a string, as one-character strings (iterating a
    [str]). *)
Fixpoint chars (s : string) : list string :=
  match s with
  | EmptyString => []
  | String c s' => String c EmptyString :: chars s'
  end.

(** Truth value of a [str]. *)
Definition str_truthy (s : string) : bool :=
  match s with EmptyString => false | _ => true end.

(** Python exceptions raised by the modelled code. *)
Inductive error := IndexError | KeyError | AttributeError.

Inductive result (A : Type) :=
  | Ok (a : A)
  | Raise (e : error).
Arguments Ok {A} a.
Arguments Raise {A} e.

Definition bind {A B} (m : result A) (k : A → result B) : result B :=
  match m with
  | Ok a => k a
  | Raise e => Raise e
  end.

Definition of_option {A} (e : error) (o : option A) : result A :=
  match o with
  | Some a => Ok a
  | None => Raise e
  end.

End Py.

Notation "'do' x <- m ; k" := (Py.bind m (fun x => k))
  (at level 10, x name, m at level 100, k at level 200).

(** ** Data model *)

(** Device objects ([machine.lights[...]], [machine.leds[...]], coils, GIs,
    flashers) and [Show] objects are referred to by identity. *)
Definition dev := nat.
Definition show_id := nat.
Definition handler_id := nat.
Definition playlist_id := nat.

(** [RGBColor]: red, green, blue. *)
Definition rgb := (Z * Z * Z)%type.

(** The dict appended by [add_to_light_update_list]. *)
Module LightUpdate.
Record t := mk {
  light : dev;
  brightness : Z;
  fade_ms : Z;
  priority : Z;
  blend : bool
}.
#[global] Instance eq_dec : EqDecision t.
Proof. solve_decision. Defined.
End LightUpdate.

(** The dict appended by [add_to_led_update_list]. *)
Module LedUpdate.
Record t := mk {
  led : dev;
  color : rgb;
  fade_ms : Z;
  priority : Z;
  blend : bool
}.
#[global] Instance eq_dec : EqDecision t.
Proof. solve_decision. Defined.
End LedUpdate.

(** [(instruction, detail)], by default [('pulse', 1.0)]. *)
Definition coil_action := (string * Qc)%type.

(** [(name, kwargs)] as handed to [bcp.bcp_trigger]. *)
Definition trigger := (string * list (string * string))%type.

(** The dict appended to [ShowController.queue] by [Playlist._advance]. *)
Record queue_item := {
  qi_playlist : playlist_id;
  qi_action_time : float
}.

(** [ExternalShow]: the device lists are the objects looked up by the
    constructor. *)
Record ExternalShow := {
  es_priority : Z;
  es_blend : bool;
  es_leds : list dev;
  es_lights : list dev;
  es_flashers : list dev;
  es_gis : list dev;
  es_coils : list dev
}.

(** The attributes of a [Show] that the controller reads and writes. *)
Module Show.
Record t := mk {
  priority : Z;
  hold : bool;
  reset : bool;
  running : bool;
  ending : bool;
  current_loop_number : Z;
  current_step : Z;
  next_step_time : float;
  sync_ms : Z;
  callback : option handler_id;
  light_states : list dev;
  led_states : list dev
}.
Definition set_running (v : bool) (c : t) : t :=
  {| priority := priority c; hold := hold c; reset := reset c; running := v; ending := ending c; current_loop_number := current_loop_number c; current_step := current_step c; next_step_time := next_step_time c; sync_ms := sync_ms c; callback := callback c; light_states := light_states c; led_states := led_states c |}.
Definition set_ending (v : bool) (c : t) : t :=
  {| priority := priority c; hold := hold c; reset := reset c; running := running c; ending := v; current_loop_number := current_loop_number c; current_step := current_step c; next_step_time := next_step_time c; sync_ms := sync_ms c; callback := callback c; light_states := light_states c; led_states := led_states c |}.
Definition set_current_loop_number (v : Z) (c : t) : t :=
  {| priority := priority c; hold := hold c; reset := reset c; running := running c; ending := ending c; current_loop_number := v; current_step := current_step c; next_step_time := next_step_time c; sync_ms := sync_ms c; callback := callback c; light_states := light_states c; led_states := led_states c |}.
Definition set_current_step (v : Z) (c : t) : t :=
  {| priority := priority c; hold := hold c; reset := reset c; running := running c; ending := ending c; current_loop_number := current_loop_number c; current_step := v; next_step_time := next_step_time c; sync_ms := sync_ms c; callback := callback c; light_states := light_states c; led_states := led_states c |}.
Definition set_next_step_time (v : float) (c : t) : t :=
  {| priority := priority c; hold := hold c; reset := reset c; running := running c; ending := ending c; current_loop_number := current_loop_number c; current_step := current_step c; next_step_time := v; sync_ms := sync_ms c; callback := callback c; light_states := light_states c; led_states := led_states c |}.

End Show.

(** [ShowController].  [current_time] is read by [Playlist._advance] but is
    assigned nowhere in the class ([__init__] sets [current_tick_time]);
    [None] stands for the attribute being absent. *)
Record ShowController := {
  light_update_list : list LightUpdate.t;
  led_update_list : list LedUpdate.t;
  event_queue : gset string;
  coil_queue : gset (dev * coil_action);
  gi_queue : gset (dev * Z);
  flasher_queue : gset dev;
  trigger_queue : list trigger;
  running_shows : list show_id;
  registered_tick_handlers : list handler_id;
  current_tick_time : float;
  queue : list queue_item;
  running_show_keys : gmap string show_id;
  running_external_show_keys : gmap string ExternalShow;
  current_time : option float
}.

Definition set_light_update_list (v : list LightUpdate.t) (c : ShowController) : ShowController :=
  {| light_update_list := v; led_update_list := led_update_list c; event_queue := event_queue c; coil_queue := coil_queue c; gi_queue := gi_queue c; flasher_queue := flasher_queue c; trigger_queue := trigger_queue c; running_shows := running_shows c; registered_tick_handlers := registered_tick_handlers c; current_tick_time := current_tick_time c; queue := queue c; running_show_keys := running_show_keys c; running_external_show_keys := running_external_show_keys c; current_time := current_time c |}.
Definition set_led_update_list (v : list LedUpdate.t) (c : ShowController) : ShowController :=
  {| light_update_list := light_update_list c; led_update_list := v; event_queue := event_queue c; coil_queue := coil_queue c; gi_queue := gi_queue c; flasher_queue := flasher_queue c; trigger_queue := trigger_queue c; running_shows := running_shows c; registered_tick_handlers := registered_tick_handlers c; current_tick_time := current_tick_time c; queue := queue c; running_show_keys := running_show_keys c; running_external_show_keys := running_external_show_keys c; current_time := current_time c |}.
Definition set_event_queue (v : gset string) (c : ShowController) : ShowController :=
  {| light_update_list := light_update_list c; led_update_list := led_update_list c; event_queue := v; coil_queue := coil_queue c; gi_queue := gi_queue c; flasher_queue := flasher_queue c; trigger_queue := trigger_queue c; running_shows := running_shows c; registered_tick_handlers := registered_tick_handlers c; current_tick_time := current_tick_time c; queue := queue c; running_show_keys := running_show_keys c; running_external_show_keys := running_external_show_keys c; current_time := current_time c |}.
Definition set_coil_queue (v : gset (dev * coil_action)) (c : ShowController) : ShowController :=
  {| light_update_list := light_update_list c; led_update_list := led_update_list c; event_queue := event_queue c; coil_queue := v; gi_queue := gi_queue c; flasher_queue := flasher_queue c; trigger_queue := trigger_queue c; running_shows := running_shows c; registered_tick_handlers := registered_tick_handlers c; current_tick_time := current_tick_time c; queue := queue c; running_show_keys := running_show_keys c; running_external_show_keys := running_external_show_keys c; current_time := current_time c |}.
Definition set_gi_queue (v : gset (dev * Z)) (c : ShowController) : ShowController :=
  {| light_update_list := light_update_list c; led_update_list := led_update_list c; event_queue := event_queue c; coil_queue := coil_queue c; gi_queue := v; flasher_queue := flasher_queue c; trigger_queue := trigger_queue c; running_shows := running_shows c; registered_tick_handlers := registered_tick_handlers c; current_tick_time := current_tick_time c; queue := queue c; running_show_keys := running_show_keys c; running_external_show_keys := running_external_show_keys c; current_time := current_time c |}.
Definition set_flasher_queue (v : gset dev) (c : ShowController) : ShowController :=
  {| light_update_list := light_update_list c; led_update_list := led_update_list c; event_queue := event_queue c; coil_queue := coil_queue c; gi_queue := gi_queue c; flasher_queue := v; trigger_queue := trigger_queue c; running_shows := running_shows c; registered_tick_handlers := registered_tick_handlers c; current_tick_time := current_tick_time c; queue := queue c; running_show_keys := running_show_keys c; running_external_show_keys := running_external_show_keys c; current_time := current_time c |}.
Definition set_trigger_queue (v : list trigger) (c : ShowController) : ShowController :=
  {| light_update_list := light_update_list c; led_update_list := led_update_list c; event_queue := event_queue c; coil_queue := coil_queue c; gi_queue := gi_queue c; flasher_queue := flasher_queue c; trigger_queue := v; running_shows := running_shows c; registered_tick_handlers := registered_tick_handlers c; current_tick_time := current_tick_time c; queue := queue c; running_show_keys := running_show_keys c; running_external_show_keys := running_external_show_keys c; current_time := current_time c |}.
Definition set_running_shows (v : list show_id) (c : ShowController) : ShowController :=
  {| light_update_list := light_update_list c; led_update_list := led_update_list c; event_queue := event_queue c; coil_queue := coil_queue c; gi_queue := gi_queue c; flasher_queue := flasher_queue c; trigger_queue := trigger_queue c; running_shows := v; registered_tick_handlers := registered_tick_handlers c; current_tick_time := current_tick_time c; queue := queue c; running_show_keys := running_show_keys c; running_external_show_keys := running_external_show_keys c; current_time := current_time c |}.
Definition set_registered_tick_handlers (v : list handler_id) (c : ShowController) : ShowController :=
  {| light_update_list := light_update_list c; led_update_list := led_update_list c; event_queue := event_queue c; coil_queue := coil_queue c; gi_queue := gi_queue c; flasher_queue := flasher_queue c; trigger_queue := trigger_queue c; running_shows := running_shows c; registered_tick_handlers := v; current_tick_time := current_tick_time c; queue := queue c; running_show_keys := running_show_keys c; running_external_show_keys := running_external_show_keys c; current_time := current_time c |}.
Definition set_current_tick_time (v : float) (c : ShowController) : ShowController :=
  {| light_update_list := light_update_list c; led_update_list := led_update_list c; event_queue := event_queue c; coil_queue := coil_queue c; gi_queue := gi_queue c; flasher_queue := flasher_queue c; trigger_queue := trigger_queue c; running_shows := running_shows c; registered_tick_handlers := registered_tick_handlers c; current_tick_time := v; queue := queue c; running_show_keys := running_show_keys c; running_external_show_keys := running_external_show_keys c; current_time := current_time c |}.
Definition set_queue (v : list queue_item) (c : ShowController) : ShowController :=
  {| light_update_list := light_update_list c; led_update_list := led_update_list c; event_queue := event_queue c; coil_queue := coil_queue c; gi_queue := gi_queue c; flasher_queue := flasher_queue c; trigger_queue := trigger_queue c; running_shows := running_shows c; registered_tick_handlers := registered_tick_handlers c; current_tick_time := current_tick_time c; queue := v; running_show_keys := running_show_keys c; running_external_show_keys := running_external_show_keys c; current_time := current_time c |}.
Definition set_running_show_keys (v : gmap string show_id) (c : ShowController) : ShowController :=
  {| light_update_list := light_update_list c; led_update_list := led_update_list c; event_queue := event_queue c; coil_queue := coil_queue c; gi_queue := gi_queue c; flasher_queue := flasher_queue c; trigger_queue := trigger_queue c; running_shows := running_shows c; registered_tick_handlers := registered_tick_handlers c; current_tick_time := current_tick_time c; queue := queue c; running_show_keys := v; running_external_show_keys := running_external_show_keys c; current_time := current_time c |}.
Definition set_running_external_show_keys (v : gmap string ExternalShow) (c : ShowController) : ShowController :=
  {| light_update_list := light_update_list c; led_update_list := led_update_list c; event_queue := event_queue c; coil_queue := coil_queue c; gi_queue := gi_queue c; flasher_queue := flasher_queue c; trigger_queue := trigger_queue c; running_shows := running_shows c; registered_tick_handlers := registered_tick_handlers c; current_tick_time := current_tick_time c; queue := queue c; running_show_keys := running_show_keys c; running_external_show_keys := v; current_time := current_time c |}.
Definition set_current_time (v : option float) (c : ShowController) : ShowController :=
  {| light_update_list := light_update_list c; led_update_list := led_update_list c; event_queue := event_queue c; coil_queue := coil_queue c; gi_queue := gi_queue c; flasher_queue := flasher_queue c; trigger_queue := trigger_queue c; running_shows := running_shows c; registered_tick_handlers := registered_tick_handlers c; current_tick_time := current_tick_time c; queue := queue c; running_show_keys := running_show_keys c; running_external_show_keys := running_external_show_keys c; current_time := v |}.

(** Calls into collaborators, in the order in which they are made. *)
Inductive call :=
  | light_on (light : dev) (brightness fade_ms priority : Z) (cache : bool)
  | led_color (led : dev) (color : rgb) (fade_ms priority : Z) (blend cache : bool)
  | light_restore (light : dev)
  | led_restore (led : dev)
  | coil_pulse (coil : dev) (power : Qc)
  | gi_enable (gi : dev) (brightness : Z)
  | flasher_flash (flasher : dev)
  | events_post (event : string)
  | bcp_trigger (name : string) (kwargs : list (string * string))
  | show_tick (show : show_id) (now : float)
  | show_resync (show : show_id)
  | show_callback (show : show_id) (cb : handler_id)
  | tick_handler (h : handler_id).

(** What the controller reads from device objects: [light.cache['priority']],
    [led.state['priority']] and [led.cache['priority']]. *)
Record Devices := {
  light_cache_priority : dev → Z;
  led_state_priority : dev → Z;
  led_cache_priority : dev → Z
}.

(** The machine: the controller, the [Show] objects, the devices and the log
    of calls made so far. *)
Record World := {
  sc : ShowController;
  shows : show_id → Show.t;
  devices : Devices;
  log : list call
}.

Definition with_sc (f : ShowController → ShowController) (w : World) : World :=
  {| sc := f (sc w); shows := shows w; devices := devices w; log := log w |}.

Definition with_show (show : show_id) (f : Show.t → Show.t) (w : World) : World :=
  {| sc := sc w; shows := <[show := f (shows w show)]> (shows w);
     devices := devices w; log := log w |}.

(** What a [Show] or a tick handler may ask of the controller while it runs:
    the controller's [add_to_*] methods. *)
Inductive request :=
  | req_light (light : dev) (brightness fade_ms priority : Z) (blend : bool)
  | req_led (led : dev) (color : rgb) (fade_ms priority : Z) (blend : bool)
  | req_event (event : string)
  | req_coil (coil : dev) (action : coil_action)
  | req_gi (gi : dev) (value : Z)
  | req_flasher (flasher : dev)
  | req_trigger (t : trigger).

(** The collaborators: how the device layer changes the device attributes
    when called, and what shows and tick handlers enqueue when run. *)
Record Env := {
  device_effect : call → Devices → Devices;
  show_tick_requests : show_id → float → World → list request;
  handler_requests : handler_id → World → list request
}.

Definition do_call (E : Env) (c : call) (w : World) : World :=
  {| sc := sc w; shows := shows w;
     devices := device_effect E c (devices w); log := log w ++ [c] |}.

(** ** [ShowController]: the pending batches *)

(** [item['light'] == light and item['priority'] <= priority]. *)
Definition light_superseded (light : dev) (priority : Z) (item : LightUpdate.t) : bool :=
  bool_decide (LightUpdate.light item = light)
  && bool_decide (LightUpdate.priority item ≤ priority).

Definition add_to_light_update_list (light : dev) (brightness fade_ms priority : Z)
    (blend : bool) (c : ShowController) : ShowController :=
  set_light_update_list
    (Py.for_remove (light_superseded light priority) (light_update_list c)
     ++ [LightUpdate.mk light brightness fade_ms priority blend]) c.

(** [item['led'] == led and item['priority'] <= priority]. *)
Definition led_superseded (led : dev) (priority : Z) (item : LedUpdate.t) : bool :=
  bool_decide (LedUpdate.led item = led)
  && bool_decide (LedUpdate.priority item ≤ priority).

Definition add_to_led_update_list (led : dev) (color : rgb) (fade_ms priority : Z)
    (blend : bool) (c : ShowController) : ShowController :=
  set_led_update_list
    (Py.for_remove (led_superseded led priority) (led_update_list c)
     ++ [LedUpdate.mk led color fade_ms priority blend]) c.

Definition add_to_event_queue (event : string) (c : ShowController) : ShowController :=
  set_event_queue (event_queue c ∪ {[event]}) c.

Definition add_to_coil_queue (coil : dev) (action : coil_action)
    (c : ShowController) : ShowController :=
  set_coil_queue (coil_queue c ∪ {[(coil, action)]}) c.

Definition add_to_gi_queue (gi : dev) (value : Z) (c : ShowController) : ShowController :=
  set_gi_queue (gi_queue c ∪ {[(gi, value)]}) c.

Definition add_to_flasher_queue (flasher : dev) (c : ShowController) : ShowController :=
  set_flasher_queue (flasher_queue c ∪ {[flasher]}) c.

Definition add_to_trigger_queue (t : trigger) (c : ShowController) : ShowController :=
  set_trigger_queue (trigger_queue c ++ [t]) c.

Definition serve (r : request) (c : ShowController) : ShowController :=
  match r with
  | req_light l b f p bl => add_to_light_update_list l b f p bl c
  | req_led l col f p bl => add_to_led_update_list l col f p bl c
  | req_event e => add_to_event_queue e c
  | req_coil co a => add_to_coil_queue co a c
  | req_gi g v => add_to_gi_queue g v c
  | req_flasher f => add_to_flasher_queue f c
  | req_trigger t => add_to_trigger_queue t c
  end.

(** ** [ShowController]: flushing the batches *)

Section Flush.
Context (E : Env).

Definition light_on_of (item : LightUpdate.t) : call :=
  light_on (LightUpdate.light item) (LightUpdate.brightness item)
    (LightUpdate.fade_ms item) (LightUpdate.priority item) false.

Definition led_color_of (item : LedUpdate.t) : call :=
  led_color (LedUpdate.led item) (LedUpdate.color item) (LedUpdate.fade_ms item)
    (LedUpdate.priority item) (LedUpdate.blend item) false.

Definition _update_lights (w : World) : World :=
  with_sc (set_light_update_list [])
    (foldl (λ w item, do_call E (light_on_of item) w) w (light_update_list (sc w))).

(** One iteration of the loop of [_update_leds]. *)
Definition update_led (w : World) (item : LedUpdate.t) : World :=
  if bool_decide (led_state_priority (devices w) (LedUpdate.led item)
                  ≤ LedUpdate.priority item)
  then do_call E (led_color_of item) w
  else w.

Definition _update_leds (w : World) : World :=
  with_sc (set_led_update_list []) (foldl update_led w (led_update_list (sc w))).

Definition fire_coil (w : World) (coil : dev * coil_action) : World :=
  if bool_decide (coil.2.1 = "pulse") then do_call E (coil_pulse coil.1 coil.2.2) w
  else w.

Definition _fire_coils (w : World) : World :=
  with_sc (set_coil_queue ∅) (foldl fire_coil w (elements (coil_queue (sc w)))).

Definition _fire_events (w : World) : World :=
  with_sc (set_event_queue ∅)
    (foldl (λ w event, do_call E (events_post event) w) w (elements (event_queue (sc w)))).

Definition _update_gis (w : World) : World :=
  with_sc (set_gi_queue ∅)
    (foldl (λ w gi, do_call E (gi_enable gi.1 gi.2) w) w (elements (gi_queue (sc w)))).

Definition _update_flashers (w : World) : World :=
  with_sc (set_flasher_queue ∅)
    (foldl (λ w flasher, do_call E (flasher_flash flasher) w) w
       (elements (flasher_queue (sc w)))).

Definition _fire_triggers (w : World) : World :=
  with_sc (set_trigger_queue [])
    (foldl (λ w t, do_call E (bcp_trigger t.1 t.2) w) w (trigger_queue (sc w))).

Definition when (b : bool) (f : World → World) (w : World) : World :=
  if b then f w else w.

Definition _do_update (w : World) : World :=
  let w := when (bool_decide (light_update_list (sc w) ≠ [])) _update_lights w in
  let w := when (bool_decide (led_update_list (sc w) ≠ [])) _update_leds w in
  let w := when (bool_decide (coil_queue (sc w) ≠ ∅)) _fire_coils w in
  let w := when (bool_decide (event_queue (sc w) ≠ ∅)) _fire_events w in
  let w := when (bool_decide (gi_queue (sc w) ≠ ∅)) _update_gis w in
  let w := when (bool_decide (flasher_queue (sc w) ≠ ∅)) _update_flashers w in
  when (bool_decide (trigger_queue (sc w) ≠ [])) _fire_triggers w.

(** [_tick]: [now] is what [machine.clock.get_time()] returns.  Running a
    show or a handler is logged, and what it enqueues is served. *)
Definition tick_show (now : float) (w : World) (show : show_id) : World :=
  let rs := show_tick_requests E show now w in
  with_sc (λ c, foldl (λ c r, serve r c) c rs) (do_call E (show_tick show now) w).

Definition run_handler (w : World) (h : handler_id) : World :=
  let rs := handler_requests E h w in
  with_sc (λ c, foldl (λ c r, serve r c) c rs) (do_call E (tick_handler h) w).

Definition _tick (now : float) (w : World) : World :=
  let w := with_sc (set_current_tick_time now) w in
  let w := foldl (tick_show now) w (running_shows (sc w)) in
  let w := foldl run_handler w (registered_tick_handlers (sc w)) in
  _do_update w.

End Flush.

(** ** [ShowController]: starting and ending shows *)

(** [list.sort(key=...)] is a stable sort: insertion from the right, each
    element going in front of the first element whose key is not smaller. *)
Fixpoint insert_by {A} (key : A → Z) (x : A) (l : list A) : list A :=
  match l with
  | [] => [x]
  | y :: t => if key x <=? key y then x :: y :: t else y :: insert_by key x t
  end.

Definition sort_by {A} (key : A → Z) (l : list A) : list A :=
  foldr (insert_by key) [] l.

(** Python's [float] is an IEEE 754 double.  [float_of_int z] is the double
    nearest to the int [z] (ties to even), which is what [z / 1000.0] first
    turns [z] into; for an int beyond the range of doubles Python raises
    [OverflowError] where this gives an infinity. *)
Definition float_of_int (z : Z) : float :=
  SF2Prim (binary_normalize prec emax z 0 false).

(** [ms / 1000.0]. *)
Definition ms_to_seconds (ms : Z) : float :=
  PrimFloat.div (float_of_int ms) 1000%float.

Definition _run_show (show : show_id) (w : World) : World :=
  if bool_decide (show ∈ running_shows (sc w)) then w
  else
    let w := with_show show (Show.set_ending false) w in
    let w := with_show show (Show.set_running true) w in
    let w := with_show show (Show.set_current_loop_number 0) w in
    let w := with_show show (Show.set_next_step_time (current_tick_time (sc w))) w in
    let w :=
      if bool_decide (Show.sync_ms (shows w show) ≠ 0)
      then with_show show
             (λ s, Show.set_next_step_time
                     (PrimFloat.add (Show.next_step_time s)
                        (ms_to_seconds (Show.sync_ms s))) s) w
      else w in
    let w := with_sc (λ c, set_running_shows (running_shows c ++ [show]) c) w in
    with_sc (λ c, set_running_shows
                    (sort_by (λ x, Show.priority (shows w x)) (running_shows c)) c) w.

Section Restore.
Context (E : Env).

Definition restore_light (priority : Z) (w : World) (light : dev) : World :=
  if bool_decide (light_cache_priority (devices w) light ≤ priority)
  then do_call E (light_restore light) w else w.

Definition restore_led (priority : Z) (w : World) (led : dev) : World :=
  if bool_decide (led_cache_priority (devices w) led ≤ priority)
  then do_call E (led_restore led) w else w.

Definition resync_lower (priority : Z) (w : World) (other_show : show_id) : World :=
  if bool_decide (Show.priority (shows w other_show) < priority)
  then do_call E (show_resync other_show) w else w.

(** [restore_lower_lights(show=show)]: the priority is the show's. *)
Definition restore_lower_lights (show : show_id) (w : World) : World :=
  let priority := Show.priority (shows w show) in
  let w := foldl (restore_light priority) w (Show.light_states (shows w show)) in
  let w := foldl (restore_led priority) w (Show.led_states (shows w show)) in
  foldl (resync_lower priority) w (running_shows (sc w)).

Definition _end_show (show : show_id) (reset : option bool) (w : World) : World :=
  let w := with_sc (λ c, set_running_shows
                           (filter (λ x, x ≠ show) (running_shows c)) c) w in
  let w := if Show.hold (shows w show) then w else restore_lower_lights show w in
  let this_reset := match reset with
                    | None => Show.reset (shows w show)
                    | Some r => r
                    end in
  let w := if this_reset then with_show show (Show.set_current_step 0) w else w in
  let w := with_show show (Show.set_running false) w in
  let w := with_sc (λ c, set_running_show_keys
                           (filter (λ kv, kv.2 ≠ show) (running_show_keys c)) c) w in
  match Show.callback (shows w show) with
  | Some cb => do_call E (show_callback show cb) w
  | None => w
  end.

End Restore.

(** [ShowController.__init__]. *)
Definition ShowController_init : ShowController :=
  {| light_update_list := []; led_update_list := []; event_queue := ∅;
     coil_queue := ∅; gi_queue := ∅; flasher_queue := ∅; trigger_queue := [];
     running_shows := []; registered_tick_handlers := [];
     current_tick_time := 0%float; queue := []; running_show_keys := ∅;
     running_external_show_keys := ∅; current_time := None |}.

(** The number of items pending in the seven collections. *)
Definition pending_count (c : ShowController) : nat :=
  (length (light_update_list c) + length (led_update_list c)
   + size (coil_queue c) + size (event_queue c) + size (gi_queue c)
   + size (flasher_queue c) + length (trigger_queue c))%nat.

(** ** A concrete machine for examples *)

(** A [Show] that was never played. *)
Definition Show_init (priority : Z) : Show.t :=
  {| Show.priority := priority; Show.hold := false; Show.reset := true;
     Show.running := false; Show.ending := false; Show.current_loop_number := 0;
     Show.current_step := 0; Show.next_step_time := 0%float; Show.sync_ms := 0;
     Show.callback := None; Show.light_states := []; Show.led_states := [] |}.

(** Devices that all cache the priority [p]. *)
Definition Devices_at (p : Z) : Devices :=
  {| light_cache_priority := λ _, p; led_state_priority := λ _, p;
     led_cache_priority := λ _, p |}.

Definition World_init : World :=
  {| sc := ShowController_init; shows := λ _, Show_init 0;
     devices := Devices_at 0; log := [] |}.

(** Collaborators that leave the device attributes alone and enqueue
    nothing. *)
Definition quiet_env : Env :=
  {| device_effect := λ _ d, d;
     show_tick_requests := λ _ _ _, [];
     handler_requests := λ _ _, [] |}.

(** A machine with the controller [c] whose devices all cache priority [p]. *)
Definition World_with (c : ShowController) (p : Z) : World :=
  {| sc := c; shows := λ _, Show_init 0; devices := Devices_at p; log := [] |}.

(** What may happen between two calls of [_run_show]: another [_run_show],
    or the clock moving on at the start of a [_tick]. *)
Inductive sc_op :=
  | op_run_show (show : show_id)
  | op_clock (now : float).

Definition apply_op (w : World) (o : sc_op) : World :=
  match o with
  | op_run_show show => _run_show show w
  | op_clock now => with_sc (set_current_tick_time now) w
  end.

(** The device layer keeps [restore] local: restoring a device changes the
    cached priority of no other device of its kind, and restoring a light
    changes the cached priority of no LED. *)
Definition restore_is_local (E : Env) : Prop :=
  (∀ d d' σ, d ≠ d' →
     light_cache_priority (device_effect E (light_restore d) σ) d'
     = light_cache_priority σ d')
  ∧ (∀ d d' σ,
       led_cache_priority (device_effect E (light_restore d) σ) d'
       = led_cache_priority σ d')
  ∧ (∀ d d' σ, d ≠ d' →
       led_cache_priority (device_effect E (led_restore d) σ) d'
       = led_cache_priority σ d').

(** Devices whose every call leaves the cached priorities as they are. *)
Definition World_c5 : World :=
  {| sc := set_running_shows [2%nat; 1%nat; 3%nat] ShowController_init;
     shows := λ s, if bool_decide (s = 1%nat)
                   then {| Show.priority := 10; Show.hold := false; Show.reset := true;
                           Show.running := true; Show.ending := false;
                           Show.current_loop_number := 0; Show.current_step := 4;
                           Show.next_step_time := 0%float; Show.sync_ms := 0;
                           Show.callback := None;
                           Show.light_states := [0%nat; 1%nat];
                           Show.led_states := [7%nat] |}
                   else Show_init (if bool_decide (s = 2%nat) then 5 else 10);
     devices := {| light_cache_priority := λ d, if bool_decide (d = 0%nat) then 10 else 20;
                   led_state_priority := λ _, 10;
                   led_cache_priority := λ _, 3 |};
     log := [] |}.

(** ** What a flush calls, item by item *)

(** The device attributes after the device layer has served [cs]. *)
Definition devices_after (E : Env) (cs : list call) (σ : Devices) : Devices :=
  foldl (λ σ c, device_effect E c σ) σ cs.

(** The [led.color] calls for a batch, from the device attributes [σ]: a
    record is written when it passes the gate on the attributes as the
    earlier writes of the batch have left them. *)
Fixpoint led_calls (E : Env) (σ : Devices) (l : list LedUpdate.t) : list call :=
  match l with
  | [] => []
  | item :: l' =>
      if bool_decide (led_state_priority σ (LedUpdate.led item) ≤ LedUpdate.priority item)
      then led_color_of item :: led_calls E (device_effect E (led_color_of item) σ) l'
      else led_calls E σ l'
  end.

(** One [pulse] per queued pair whose instruction is ['pulse']. *)
Definition coil_calls (q : gset (dev * coil_action)) : list call :=
  map (λ coil, coil_pulse coil.1 coil.2.2)
    (filter (λ coil, coil.2.1 = "pulse") (elements q)).

(** The calls of one [_do_update], in order, for the pending collections of
    [c] and the device attributes [σ]. *)
Definition flush_calls (E : Env) (σ : Devices) (c : ShowController) : list call :=
  map light_on_of (light_update_list c)
  ++ led_calls E (devices_after E (map light_on_of (light_update_list c)) σ)
       (led_update_list c)
  ++ coil_calls (coil_queue c)
  ++ map events_post (elements (event_queue c))
  ++ map (λ gi, gi_enable gi.1 gi.2) (elements (gi_queue c))
  ++ map flasher_flash (elements (flasher_queue c))
  ++ map (λ t, bcp_trigger t.1 t.2) (trigger_queue c).

(** The event a call posts, and the events posted by some calls, in
    order. *)
Definition posted_event (c : call) : option string :=
  match c with events_post e => Some e | _ => None end.

Definition posted_events (cs : list call) : list string := omap posted_event cs.

(** The machine in [_tick] when it reaches [self._do_update()]. *)
Definition tick_before_update (E : Env) (now : float) (w : World) : World :=
  let w := with_sc (set_current_tick_time now) w in
  let w := foldl (tick_show E now) w (running_shows (sc w)) in
  foldl (run_handler E) w (registered_tick_handlers (sc w)).

(** ** [Shot] *)

Module Shot.

(** The running show a shot holds: what [_update_show] reads of it. *)
Record RunningShow := {
  rs_show_name : string;
  rs_manual_advance : bool;
  rs_current_step_index : Z
}.

(** One entry of [profile.config['states']]. *)
Record StateSettings := {
  st_name : string;
  st_show : option string;
  st_manual_advance : option bool;
  st_start_step : Z;
  st_priority : Z
}.

(** [config['profile']]: its name and its [config] dict. *)
Record Profile := {
  profile_name : string;
  states : list StateSettings;
  loop : bool;
  advance_on_hit : bool;
  show_when_disabled : bool;
  profile_show : option string
}.

(** The keyword arguments [_play_show] hands to [play]. *)
Record PlayArgs := {
  pa_manual_advance : bool;
  pa_start_step : Z;
  pa_priority : Z
}.

Record t := {
  name : string;
  enabled : bool;
  profile : Profile;
  state : Z;                          (* player["shot_<name>"] *)
  active_delays : gset string;
  running_show : option RunningShow;
  mode_priority : Z;                  (* self.mode.priority *)
  monitor_enabled : bool;             (* Shot.monitor_enabled *)
  monitors : option (list handler_id) (* machine.monitors.get('shots') *)
}.

Definition set_state (v : Z) (s : t) : t :=
  {| name := name s; enabled := enabled s; profile := profile s; state := v;
     active_delays := active_delays s; running_show := running_show s;
     mode_priority := mode_priority s; monitor_enabled := monitor_enabled s;
     monitors := monitors s |}.

Definition set_running_show (v : option RunningShow) (s : t) : t :=
  {| name := name s; enabled := enabled s; profile := profile s; state := state s;
     active_delays := active_delays s; running_show := v;
     mode_priority := mode_priority s; monitor_enabled := monitor_enabled s;
     monitors := monitors s |}.

(** Calls a shot makes on its collaborators. *)
Inductive call :=
  | mark_playfield_active
  | monitor_callback (cb : handler_id) (shot profile state : string)
  | events_post (event profile state : string) (advancing : bool)
  | show_play (show : string) (args : PlayArgs)
  | running_show_stop
  | running_show_advance.

(** The registered shows and the running-show objects: [play] gives the
    running show that [machine.shows[show].play] returns ([None] when the
    show is not registered: [KeyError]), [advanced] is the running show
    after its [advance()]. *)
Record ShowEnv := {
  play : string → PlayArgs → option RunningShow;
  advanced : RunningShow → RunningShow
}.

(** Truth value of a string-or-[None] setting. *)
Definition truthy (o : option string) : bool :=
  match o with
  | Some s => Py.str_truthy s
  | None => false
  end.

Definition or_empty (o : option string) : string := default "" o.

Section Methods.
Context (E : ShowEnv).

Definition _stop_show (s : t) : t * list call :=
  match running_show s with
  | None => (s, [])
  | Some _ => (set_running_show None s, [running_show_stop])
  end.

Definition _play_show (settings : StateSettings) (start_step : option Z) (s : t)
    : Py.result (t * list call) :=
  let show_name := if truthy (st_show settings) then or_empty (st_show settings)
                   else or_empty (profile_show (profile s)) in
  let manual := match st_manual_advance settings with
                | Some b => b
                | None => negb (truthy (st_show settings))
                end in
  let step := match start_step with
              | Some n => if bool_decide (n ≠ 0) then n else st_start_step settings
              | None => st_start_step settings
              end in
  let args := {| pa_manual_advance := manual; pa_start_step := step;
                 pa_priority := st_priority settings + mode_priority s |} in
  do rs <- Py.of_option Py.KeyError (play E show_name args);
  Py.Ok (set_running_show (Some rs) s, [show_play show_name args]).

(** Stop whatever runs, then play. *)
Definition restart (settings : StateSettings) (start_step : option Z) (s : t)
    : Py.result (t * list call) :=
  let '(s, stopped) := _stop_show s in
  do r <- _play_show settings start_step s;
  Py.Ok (r.1, stopped ++ r.2).

Definition _update_show (s : t) : Py.result (t * list call) :=
  if negb (enabled s) && negb (show_when_disabled (profile s))
  then Py.Ok (_stop_show s)
  else
    do settings <- Py.of_option Py.IndexError (Py.index (states (profile s)) (state s));
    if truthy (st_show settings) then
      match running_show s with
      | Some rs =>
          if bool_decide (rs_show_name rs = or_empty (st_show settings))
             && bool_decide (rs_manual_advance rs = default false (st_manual_advance settings))
          then
            if rs_manual_advance rs
               && bool_decide (rs_current_step_index rs + 1 = st_start_step settings)
            then Py.Ok (s, [])
            else if rs_manual_advance rs
                    && bool_decide (rs_current_step_index rs + 2 = st_start_step settings)
            then Py.Ok (set_running_show (Some (advanced E rs)) s, [running_show_advance])
            else if negb (rs_manual_advance rs) then Py.Ok (s, [])
            else restart settings None s
          else restart settings None s
      | None => _play_show settings None s
      end
    else if truthy (profile_show (profile s)) then
      match running_show s with
      | Some rs =>
          if bool_decide (rs_show_name rs ≠ or_empty (profile_show (profile s)))
          then restart settings (Some (state s + 1)) s
          else if bool_decide (rs_current_step_index rs = st_start_step settings - 1)
          then Py.Ok (set_running_show (Some (advanced E rs)) s, [running_show_advance])
          else restart settings (Some (state s + 1)) s
      | None => _play_show settings (Some (state s + 1)) s
      end
    else Py.Ok (s, []).

(** [advance(force)]: the value returned, the shot afterwards and the calls
    made. *)
Definition advance (force : bool) (s : t) : Py.result (bool * t * list call) :=
  if negb (enabled s) && negb force then Py.Ok (false, s, [])
  else if Z.of_nat (length (states (profile s))) <=? state s + 1 then
    if loop (profile s) then
      do r <- _update_show (set_state 0 s);
      Py.Ok (true, r.1, r.2)
    else Py.Ok (false, s, [])
  else
    do r <- _update_show (set_state (state s + 1) s);
    Py.Ok (true, r.1, r.2).

Definition jump (new_state : Z) (force : bool) (s : t) : Py.result (t * list call) :=
  if negb (enabled s) && negb force then Py.Ok (s, [])
  else if bool_decide (new_state = state s) then Py.Ok (s, [])
  else _update_show (set_state new_state s).

Definition reset (s : t) : Py.result (t * list call) := jump 0 true s.

Definition _notify_monitors (profile_name state : string) (s : t) : list call :=
  if monitor_enabled s then
    match monitors s with
    | Some cbs => map (λ cb, monitor_callback cb (name s) profile_name state) cbs
    | None => []
    end
  else [].

(** The four events of a hit. *)
Definition hit_events (s : t) (state : string) (advancing : bool) : list call :=
  let p := profile_name (profile s) in
  [events_post (name s +:+ "_hit") p state advancing;
   events_post (name s +:+ "_" +:+ p +:+ "_hit") p state advancing;
   events_post (name s +:+ "_" +:+ p +:+ "_" +:+ state +:+ "_hit") p state advancing;
   events_post (name s +:+ "_" +:+ state +:+ "_hit") p state advancing].

(** [hit()].  A state's settings dict always has keys, so the test
    [if not profile_settings] never returns. *)
Definition hit (s : t) : Py.result (t * list call) :=
  if negb (enabled s) then Py.Ok (s, [mark_playfield_active])
  else if bool_decide (active_delays s ≠ ∅) then Py.Ok (s, [mark_playfield_active])
  else
    do settings <- Py.of_option Py.IndexError (Py.index (states (profile s)) (state s));
    let state_name := st_name settings in
    do r <- (if advance_on_hit (profile s) then advance false s
             else Py.Ok (false, s, []));
    let '(advancing, s', calls) := r in
    Py.Ok (s', [mark_playfield_active] ++ calls
               ++ _notify_monitors (profile_name (profile s')) state_name s'
               ++ hit_events s' state_name advancing).

End Methods.

(** Whether a call posts an event. *)
Definition is_post (c : call) : bool :=
  match c with events_post _ _ _ _ => true | _ => false end.

(** [s'] is [s] except for the running show it holds. *)
Definition only_show_changed (s s' : t) : Prop :=
  s' = set_running_show (running_show s') s.

(** The names of the events among some calls. *)
Definition event_names (cs : list call) : list string :=
  omap (λ c, match c with events_post e _ _ _ => Some e | _ => None end) cs.

End Shot.

(** ** A concrete shot for examples *)

(** Every show is registered; a running show starts one step before its
    [start_step] and [advance()] moves it on by one. *)
Definition shot_env : Shot.ShowEnv :=
  {| Shot.play := λ show args,
       Some {| Shot.rs_show_name := show;
               Shot.rs_manual_advance := Shot.pa_manual_advance args;
               Shot.rs_current_step_index := Shot.pa_start_step args - 1 |};
     Shot.advanced := λ rs,
       {| Shot.rs_show_name := Shot.rs_show_name rs;
          Shot.rs_manual_advance := Shot.rs_manual_advance rs;
          Shot.rs_current_step_index := Shot.rs_current_step_index rs + 1 |} |}.

Definition shot_state (state_name : string) : Shot.StateSettings :=
  {| Shot.st_name := state_name; Shot.st_show := None;
     Shot.st_manual_advance := None; Shot.st_start_step := 1;
     Shot.st_priority := 0 |}.

(** A profile of three states that advances on a hit. *)
Definition shot_profile (profile_name : string) (loop : bool) : Shot.Profile :=
  {| Shot.profile_name := profile_name;
     Shot.states := [shot_state "unlit"; shot_state "lit"; shot_state "flashing"];
     Shot.loop := loop; Shot.advance_on_hit := true;
     Shot.show_when_disabled := false; Shot.profile_show := None |}.

Definition shot_at (profile : Shot.Profile) (state : Z) : Shot.t :=
  {| Shot.name := "ramp"; Shot.enabled := true; Shot.profile := profile;
     Shot.state := state; Shot.active_delays := ∅; Shot.running_show := None;
     Shot.mode_priority := 0; Shot.monitor_enabled := false;
     Shot.monitors := None |}.

(** ** [Playlist] *)

(** Equality of Python floats as objects; [==] differs from it on the two
    zeros and on NaN only. *)
#[global] Instance float_eq_dec : EqDecision float.
Proof.
  intros x y. destruct (PrimFloat.Leibniz.eqb x y) eqn:Heq.
  - left. by apply FloatAxioms.Leibniz.eqb_spec.
  - right. intros Hxy. apply FloatAxioms.Leibniz.eqb_spec in Hxy. congruence.
Defined.

#[global] Instance queue_item_eq_dec : EqDecision queue_item.
Proof. solve_decision. Defined.

Module Playlist.

(** One dict of [step_actions]. *)
Record StepAction := {
  sa_step_num : Z;
  sa_show : show_id;
  sa_loops : Z;
  sa_tocks_per_sec : Z;
  sa_repeat : bool;
  sa_blend : bool
}.
#[global] Instance step_action_eq_dec : EqDecision StepAction.
Proof. solve_decision. Defined.

(** One value of [step_settings_dic]. *)
Record StepSettings := {
  time : Z;
  trigger_show : option show_id;
  hold : bool
}.

(** The keyword arguments of [show.play]; [pa_callback] is [Some p] when the
    callback is the [_advance] of playlist [p]. *)
Record PlayArgs := {
  pa_repeat : bool;
  pa_priority : Z;
  pa_blend : bool;
  pa_tocks_per_sec : Z;
  pa_loops : Z;
  pa_callback : option playlist_id;
  pa_hold : bool
}.

(** Calls a playlist makes; [hold] of [show_stop] is [None] when the
    argument is left out or is [None]. *)
Inductive call :=
  | show_play (show : show_id) (args : PlayArgs)
  | show_stop (show : show_id) (hold : option bool)
  | log_warning.

Record t := {
  pid : playlist_id;
  step_settings_dic : gmap Z StepSettings;
  step_actions : list StepAction;
  steps : list Z;
  current_step_position : Z;
  repeat : bool;
  repeat_count : Z;
  current_repeat_loop : Z;
  running : bool;
  priority : Z;
  starting : bool;
  stopping : bool
}.

Definition set_step_settings_dic (v : gmap Z StepSettings) (p : t) : t :=
  {| pid := pid p; step_settings_dic := v; step_actions := step_actions p; steps := steps p; current_step_position := current_step_position p; repeat := repeat p; repeat_count := repeat_count p; current_repeat_loop := current_repeat_loop p; running := running p; priority := priority p; starting := starting p; stopping := stopping p |}.
Definition set_step_actions (v : list StepAction) (p : t) : t :=
  {| pid := pid p; step_settings_dic := step_settings_dic p; step_actions := v; steps := steps p; current_step_position := current_step_position p; repeat := repeat p; repeat_count := repeat_count p; current_repeat_loop := current_repeat_loop p; running := running p; priority := priority p; starting := starting p; stopping := stopping p |}.
Definition set_steps (v : list Z) (p : t) : t :=
  {| pid := pid p; step_settings_dic := step_settings_dic p; step_actions := step_actions p; steps := v; current_step_position := current_step_position p; repeat := repeat p; repeat_count := repeat_count p; current_repeat_loop := current_repeat_loop p; running := running p; priority := priority p; starting := starting p; stopping := stopping p |}.
Definition set_current_step_position (v : Z) (p : t) : t :=
  {| pid := pid p; step_settings_dic := step_settings_dic p; step_actions := step_actions p; steps := steps p; current_step_position := v; repeat := repeat p; repeat_count := repeat_count p; current_repeat_loop := current_repeat_loop p; running := running p; priority := priority p; starting := starting p; stopping := stopping p |}.
Definition set_repeat (v : bool) (p : t) : t :=
  {| pid := pid p; step_settings_dic := step_settings_dic p; step_actions := step_actions p; steps := steps p; current_step_position := current_step_position p; repeat := v; repeat_count := repeat_count p; current_repeat_loop := current_repeat_loop p; running := running p; priority := priority p; starting := starting p; stopping := stopping p |}.
Definition set_repeat_count (v : Z) (p : t) : t :=
  {| pid := pid p; step_settings_dic := step_settings_dic p; step_actions := step_actions p; steps := steps p; current_step_position := current_step_position p; repeat := repeat p; repeat_count := v; current_repeat_loop := current_repeat_loop p; running := running p; priority := priority p; starting := starting p; stopping := stopping p |}.
Definition set_current_repeat_loop (v : Z) (p : t) : t :=
  {| pid := pid p; step_settings_dic := step_settings_dic p; step_actions := step_actions p; steps := steps p; current_step_position := current_step_position p; repeat := repeat p; repeat_count := repeat_count p; current_repeat_loop := v; running := running p; priority := priority p; starting := starting p; stopping := stopping p |}.
Definition set_running (v : bool) (p : t) : t :=
  {| pid := pid p; step_settings_dic := step_settings_dic p; step_actions := step_actions p; steps := steps p; current_step_position := current_step_position p; repeat := repeat p; repeat_count := repeat_count p; current_repeat_loop := current_repeat_loop p; running := v; priority := priority p; starting := starting p; stopping := stopping p |}.
Definition set_priority (v : Z) (p : t) : t :=
  {| pid := pid p; step_settings_dic := step_settings_dic p; step_actions := step_actions p; steps := steps p; current_step_position := current_step_position p; repeat := repeat p; repeat_count := repeat_count p; current_repeat_loop := current_repeat_loop p; running := running p; priority := v; starting := starting p; stopping := stopping p |}.
Definition set_starting (v : bool) (p : t) : t :=
  {| pid := pid p; step_settings_dic := step_settings_dic p; step_actions := step_actions p; steps := steps p; current_step_position := current_step_position p; repeat := repeat p; repeat_count := repeat_count p; current_repeat_loop := current_repeat_loop p; running := running p; priority := priority p; starting := v; stopping := stopping p |}.
Definition set_stopping (v : bool) (p : t) : t :=
  {| pid := pid p; step_settings_dic := step_settings_dic p; step_actions := step_actions p; steps := steps p; current_step_position := current_step_position p; repeat := repeat p; repeat_count := repeat_count p; current_repeat_loop := current_repeat_loop p; running := running p; priority := priority p; starting := starting p; stopping := v |}.

(** [Playlist.__init__]. *)
Definition init (pid : playlist_id) : t :=
  {| pid := pid; step_settings_dic := ∅; step_actions := []; steps := [];
     current_step_position := 0; repeat := false; repeat_count := 0;
     current_repeat_loop := 0; running := false; priority := 0;
     starting := false; stopping := false |}.

(** What [Show.play] and [Show.stop] do to the machine. *)
Record ShowEnv := {
  play : show_id → PlayArgs → World → World;
  stop_show : show_id → option bool → World → World
}.

(** A playlist, the machine it runs on and the calls made so far. *)
Record St := {
  pl : t;
  world : World;
  calls : list call
}.

Definition add_show (step_num : Z) (show : show_id) (loops tocks_per_sec : Z)
    (blend repeat : bool) (p : t) : t :=
  let temp_steps := step_actions p in
  let actions :=
    foldl (λ l step, if bool_decide (sa_step_num step = step_num)
                        && bool_decide (sa_show step = show)
                     then Py.remove step l else l)
      (step_actions p) temp_steps in
  let p := set_step_actions
             (actions ++ [{| sa_step_num := step_num; sa_show := show;
                             sa_loops := loops; sa_tocks_per_sec := tocks_per_sec;
                             sa_repeat := repeat; sa_blend := blend |}]) p in
  set_steps (sort_by (λ x, x) (remove_dups (steps p ++ [step_num]))) p.

Definition step_settings (step : Z) (time : Z) (trigger_show : option show_id)
    (hold : bool) (p : t) : t :=
  set_step_settings_dic
    (<[step := {| time := time; trigger_show := trigger_show; hold := hold |}]>
       (step_settings_dic p)) p.

(** The end of [_advance]: move [current_step_position] on. *)
Definition advance_position (p : t) : t :=
  if bool_decide (current_step_position p = Z.of_nat (length (steps p)) - 1) then
    let p := set_current_step_position 0 p in
    if repeat p then
      if bool_decide (repeat_count p ≠ 0) then
        if bool_decide (current_repeat_loop p < repeat_count p - 1)
        then set_current_repeat_loop (current_repeat_loop p + 1) p
        else set_stopping true p
      else p
    else set_stopping true p
  else set_current_step_position (current_step_position p + 1) p.

Section Methods.
Context (E : ShowEnv).

(** One iteration of the loop that stops the previous step's shows. *)
Definition stop_previous (prev_step : Z) (acc : World * list call)
    (action : StepAction) : World * list call :=
  if bool_decide (sa_step_num action = prev_step)
     && bool_decide (sa_show action ∈ running_shows (sc acc.1))
  then (stop_show E (sa_show action) None acc.1,
        acc.2 ++ [show_stop (sa_show action) None])
  else acc.

(** One iteration of the loop that plays the current step's shows. *)
Definition play_action (p : t) (current : Z) (settings : StepSettings)
    (acc : World * list call) (action : StepAction) : World * list call :=
  if bool_decide (sa_step_num action = current) then
    let is_trigger := bool_decide (Some (sa_show action) = trigger_show settings) in
    let warn := is_trigger && bool_decide (sa_loops action = 0) in
    let args := {| pa_repeat := sa_repeat action; pa_priority := priority p;
                   pa_blend := sa_blend action;
                   pa_tocks_per_sec := sa_tocks_per_sec action;
                   pa_loops := if warn then 1 else sa_loops action;
                   pa_callback := if is_trigger then Some (pid p) else None;
                   pa_hold := hold settings |} in
    (play E (sa_show action) args acc.1,
     acc.2 ++ (if warn then [log_warning] else []) ++ [show_play (sa_show action) args])
  else acc.

(** The deferred action of a timed step without a trigger show. *)
Definition schedule (p : t) (settings : StepSettings) (w : World) : Py.result World :=
  if bool_decide (time settings ≠ 0) && negb (bool_decide (is_Some (trigger_show settings)))
  then
    do now <- Py.of_option Py.AttributeError (current_time (sc w));
    Py.Ok (with_sc (λ c, set_queue
                           (queue c ++ [{| qi_playlist := pid p;
                                           qi_action_time :=
                                             PrimFloat.add now (float_of_int (time settings)) |}])
                           c) w)
  else Py.Ok w.

Definition _advance (st : St) : Py.result St :=
  let p := pl st in
  if negb (running p) then Py.Ok st
  else
    do current <- Py.of_option Py.IndexError
                    (Py.index (steps p) (current_step_position p));
    do prev <- Py.of_option Py.IndexError
                 (Py.index (steps p) (current_step_position p - 1));
    let acc := if starting p then (world st, calls st)
               else foldl (stop_previous prev) (world st, calls st) (step_actions p) in
    let p := set_starting false p in
    if stopping p then Py.Ok {| pl := p; world := acc.1; calls := acc.2 |}
    else
      do settings <- Py.of_option Py.KeyError (step_settings_dic p !! current);
      let acc := foldl (play_action p current settings) acc (step_actions p) in
      do w <- schedule p settings acc.1;
      Py.Ok {| pl := advance_position p; world := w; calls := acc.2 |}.

(** One iteration of the loop of [stop] over [step_actions]. *)
Definition stop_action (p : t) (hold : option bool) (acc : Py.result (World * list call))
    (action : StepAction) : Py.result (World * list call) :=
  do a <- acc;
  do current <- Py.of_option Py.IndexError
                  (Py.index (steps p) (current_step_position p - 1));
  if bool_decide (sa_step_num action = current)
  then Py.Ok (stop_show E (sa_show action) hold a.1,
              a.2 ++ [show_stop (sa_show action) hold])
  else Py.Ok a.

Definition stop (reset : bool) (hold : option bool) (st : St) : Py.result St :=
  let p := set_running false (pl st) in
  do a <- foldl (stop_action p hold) (Py.Ok (world st, calls st)) (step_actions p);
  let w := with_sc (λ c, set_queue
                           (Py.for_remove (λ item, bool_decide (qi_playlist item = pid p))
                              (queue c)) c) a.1 in
  let p := if reset
           then set_current_repeat_loop 0 (set_current_step_position 0 p)
           else p in
  Py.Ok {| pl := p; world := w; calls := a.2 |}.

(** The state in which [start], on a playlist that is not running, calls
    [_advance]. *)
Definition starting_state (new_priority : Z) (new_repeat : bool) (new_repeat_count : Z)
    (reset : bool) (st : St) : St :=
  let p := pl st in
  let p := if reset
           then set_current_repeat_loop 0 (set_current_step_position 0 p)
           else p in
  let p := set_running true p in
  let p := set_starting true p in
  let p := set_stopping false p in
  let p := set_repeat new_repeat p in
  let p := set_repeat_count new_repeat_count p in
  let p := set_priority new_priority p in
  {| pl := p; world := world st; calls := calls st |}.

(** [start] on a playlist that is not running. *)
Definition start_stopped (new_priority : Z) (new_repeat : bool) (new_repeat_count : Z)
    (reset : bool) (st : St) : Py.result St :=
  _advance (starting_state new_priority new_repeat new_repeat_count reset st).

(** [start]: on a running playlist, [reset] stops it and starts it again
    (with [reset] at its default, [True]); [stop] has left it not running. *)
Definition start (new_priority : Z) (new_repeat : bool) (new_repeat_count : Z)
    (reset : bool) (st : St) : Py.result St :=
  if negb (running (pl st))
  then start_stopped new_priority new_repeat new_repeat_count reset st
  else if reset then
    do st <- stop true None st;
    start_stopped new_priority new_repeat new_repeat_count true st
  else Py.Ok st.

(** [n] calls of [_advance] in a row, each on what the one before left. *)
Fixpoint advance_times (n : nat) (st : St) : Py.result St :=
  match n with
  | O => Py.Ok st
  | S n' => do st <- _advance st; advance_times n' st
  end.

End Methods.

(** The playlist a running playlist becomes by an [_advance] that raises
    nothing. *)
Definition after_advance (p : t) : t :=
  let p := set_starting false p in
  if stopping p then p else advance_position p.

(** The number of [_advance] calls after which a playlist started from its
    first step is marked [stopping]; [None] when it repeats for ever. *)
Definition stops_after (p : t) : option Z :=
  let len := Z.of_nat (length (steps p)) in
  if repeat p then
    if bool_decide (repeat_count p ≠ 0) then Some (Z.max 1 (repeat_count p) * len)
    else None
  else Some len.

(** Every step has its settings, and none is a timed step without a trigger
    show: [_advance] then never reads the controller's clock. *)
Definition steps_configured (p : t) : Prop :=
  ∀ s, s ∈ steps p →
    ∃ settings, step_settings_dic p !! s = Some settings
                ∧ (time settings = 0 ∨ is_Some (trigger_show settings)).

End Playlist.

(** ** A concrete playlist for examples *)

(** Modelled from the spec: [Show.play] and [Show.stop] are not in the
    source; by the spec, [play()] enters the show into the running set and
    [stop()] takes it out and restores what it touched.  Here they are
    [_run_show] and [_end_show]. *)
Definition playlist_env : Playlist.ShowEnv :=
  {| Playlist.play := λ show _ w, _run_show show w;
     Playlist.stop_show := λ show _ w, _end_show quiet_env show None w |}.

(** Steps 1, 2 and 3, one show each, each step lasting [time] seconds. *)
Definition playlist_123 (time : Z) : Playlist.t :=
  Playlist.step_settings 3 time None false
    (Playlist.step_settings 2 time None false
       (Playlist.step_settings 1 time None false
          (Playlist.add_show 3 13%nat 0 32 false true
             (Playlist.add_show 2 12%nat 0 32 false true
                (Playlist.add_show 1 11%nat 0 32 false true (Playlist.init 0%nat)))))).

Definition playlist_state (p : Playlist.t) (w : World) : Playlist.St :=
  {| Playlist.pl := p; Playlist.world := w; Playlist.calls := [] |}.

(** [World_init] with the attribute [current_time] that [Playlist._advance]
    reads set to [now]. *)
Definition World_clock (now : float) : World :=
  with_sc (set_current_time (Some now)) World_init.

(** ** [ExternalShow] and the external show commands *)

(** The controller methods an [ExternalShow] names, with their arguments.
    Of these only [add_to_led_update_list] is a method of [ShowController];
    the names with a leading underscore are not defined in the class. *)
Inductive ext_request :=
  | ext_add_to_led_update_list (led : dev) (color : rgb) (fade_ms priority : Z)
      (blend : bool)
  | ext__add_to_light_update_list (light : dev) (brightness priority : Z) (blend : bool)
  | ext__add_to_gi_queue (gi : dev) (value : Z)
  | ext__add_to_flasher_queue (flasher : dev)
  | ext__add_to_coil_queue (coil : dev)
  | ext__add_to_event_queue (event : string).

(** [Util.chunker], [Util.hex_string_to_int] and [RGBColor.hex_to_rgb] are
    not in the source; they are taken as given. *)
Record Codec := {
  chunker : string → nat → list string;
  hex_string_to_int : string → Z;
  hex_to_rgb : string → rgb
}.

(** Truth value of a [str]-or-[None] argument. *)
Definition data_truthy (data : option string) : bool :=
  match data with
  | Some s => Py.str_truthy s
  | None => false
  end.

(** [s.split(",")]. *)
Fixpoint split_commas_go (acc s : string) : list string :=
  match s with
  | EmptyString => [String.rev acc]
  | String c s' =>
      if bool_decide (String c "" = ",") then String.rev acc :: split_commas_go "" s'
      else split_commas_go (String c acc) s'
  end.

Definition split_commas (s : string) : list string := split_commas_go "" s.

Section External.
Context (K : Codec).

Definition update_leds (es : ExternalShow) (data : string) : list ext_request :=
  map (λ x, ext_add_to_led_update_list x.1 (hex_to_rgb K x.2) 0 (es_priority es)
              (es_blend es))
    (Py.zip (es_leds es) (chunker K data 6)).

Definition update_lights (es : ExternalShow) (data : string) : list ext_request :=
  map (λ x, ext__add_to_light_update_list x.1 (hex_string_to_int K x.2)
              (es_priority es) (es_blend es))
    (Py.zip (es_lights es) (chunker K data 2)).

Definition update_gis (es : ExternalShow) (data : string) : list ext_request :=
  map (λ x, ext__add_to_gi_queue x.1 (hex_string_to_int K x.2))
    (Py.zip (es_lights es) (chunker K data 2)).

Definition update_flashers (es : ExternalShow) (data : string) : list ext_request :=
  map (λ x, ext__add_to_flasher_queue x.1)
    (filter (λ x, Py.str_truthy x.2) (Py.zip (es_flashers es) (Py.chars data))).

Definition update_coils (es : ExternalShow) (data : string) : list ext_request :=
  map (λ x, ext__add_to_coil_queue x.1)
    (filter (λ x, Py.str_truthy x.2) (Py.zip (es_coils es) (Py.chars data))).

Definition _process_external_show_frame_command (c : ShowController) (name : string)
    (led_data light_data flasher_data gi_data coil_data events : option string)
    : list ext_request :=
  match running_external_show_keys c !! name with
  | None => []
  | Some es =>
      (if data_truthy led_data then update_leds es (default "" led_data) else [])
      ++ (if data_truthy light_data then update_lights es (default "" light_data) else [])
      ++ (if data_truthy flasher_data then update_gis es (default "" flasher_data) else [])
      ++ (if data_truthy gi_data then update_flashers es (default "" gi_data) else [])
      ++ (if data_truthy coil_data then update_coils es (default "" coil_data) else [])
      ++ (if data_truthy events
          then map ext__add_to_event_queue (split_commas (default "" events))
          else [])
  end.

End External.

(** [_process_external_show_start_command], with the device objects the
    [ExternalShow] constructor looks up already at hand. *)
Definition _process_external_show_start_command (name : string) (es : ExternalShow)
    (c : ShowController) : ShowController :=
  match running_external_show_keys c !! name with
  | None => set_running_external_show_keys (<[name := es]> (running_external_show_keys c)) c
  | Some _ => c
  end.

(** [ExternalShow.stop]. *)
Definition external_show_stop (E : Env) (es : ExternalShow) (w : World) : World :=
  let w := foldl (restore_led E (es_priority es)) w (es_leds es) in
  foldl (restore_light E (es_priority es)) w (es_lights es).

Definition _process_external_show_stop_command (E : Env) (name : string) (w : World)
    : World :=
  match running_external_show_keys (sc w) !! name with
  | Some es =>
      with_sc (λ c, set_running_external_show_keys
                      (delete name (running_external_show_keys c)) c)
        (external_show_stop E es w)
  | None => w
  end.

(** An external show with one light, one GI and one flasher. *)
Definition external_show_example : ExternalShow :=
  {| es_priority := 3; es_blend := true; es_leds := []; es_lights := [1%nat];
     es_flashers := [3%nat]; es_gis := [2%nat]; es_coils := [] |}.

(** * Properties *)

(** ** The Python loop that removes while it iterates *)

Section ForRemove.
Context {A : Type} `{EqDecision A} (cond : A → bool).

Lemma remove_length_le (x : A) (l : list A) :
  (length (Py.remove x l) ≤ length l)%nat.
Proof.
  induction l as [|y t IH]; simpl; [lia|].
  destruct (decide (x = y)); simpl; lia.
Qed.

Lemma remove_sublist (x : A) (l : list A) : Py.remove x l `sublist_of` l.
Proof.
  induction l as [|y t IH]; simpl; [constructor|].
  destruct (decide (x = y)).
  - by apply sublist_cons.
  - by apply sublist_skip.
Qed.

(** Removing an element that satisfies [cond] loses no element that does not. *)
Lemma remove_filter_neg (x : A) (l : list A) :
  cond x = true →
  filter (λ y, ¬ cond y) (Py.remove x l) = filter (λ y, ¬ cond y) l.
Proof.
  intros Hx. induction l as [|y t IH]; simpl; [done|].
  destruct (decide (x = y)) as [<-|Hne].
  - rewrite filter_cons_False; [done|]. rewrite Hx. by intros Hn; apply Hn.
  - rewrite !filter_cons. destruct (decide (¬ cond y)); by rewrite IH.
Qed.

(** The first occurrence is the one behind a prefix that does not contain
    the element. *)
Lemma remove_app_notin (x : A) (pre suf : list A) :
  x ∉ pre → Py.remove x (pre ++ x :: suf) = pre ++ suf.
Proof.
  induction pre as [|y t IH]; simpl; intros Hnotin.
  - by rewrite decide_True.
  - rewrite decide_False; [|set_solver]. f_equal. apply IH. set_solver.
Qed.

(** Any number of iterations that reaches the end of the list gives the same
    result: the loop terminates, and [length l] iterations suffice. *)
Lemma remove_while_iterating_fuel (n m i : nat) (l : list A) :
  (length l ≤ n + i)%nat → (length l ≤ m + i)%nat →
  Py.remove_while_iterating cond n i l = Py.remove_while_iterating cond m i l.
Proof.
  revert m i l. induction n as [|n IH]; intros m i l Hn Hm.
  - destruct m; simpl; [done|]. by rewrite lookup_ge_None_2 by lia.
  - destruct m as [|m]; simpl.
    + by rewrite lookup_ge_None_2 by lia.
    + destruct (l !! i) as [item|]; [|done].
      apply IH; destruct (cond item);
        try (pose proof (remove_length_le item l)); lia.
Qed.

Lemma remove_while_iterating_sublist (n i : nat) (l : list A) :
  Py.remove_while_iterating cond n i l `sublist_of` l.
Proof.
  revert i l. induction n as [|n IH]; intros i l; simpl; [done|].
  destruct (l !! i) as [item|]; [|done].
  destruct (cond item); [|apply IH].
  etrans; [apply IH|apply remove_sublist].
Qed.

Lemma remove_while_iterating_keeps (n i : nat) (l : list A) :
  filter (λ y, ¬ cond y) (Py.remove_while_iterating cond n i l)
  = filter (λ y, ¬ cond y) l.
Proof.
  revert i l. induction n as [|n IH]; intros i l; simpl; [done|].
  destruct (l !! i) as [item|] eqn:Hi; [|done].
  destruct (cond item) eqn:Hc; rewrite IH; [|done].
  by apply remove_filter_neg.
Qed.

Lemma remove_while_iterating_clean (n i : nat) (l : list A) :
  Forall (λ y, ¬ cond y) l → Py.remove_while_iterating cond n i l = l.
Proof.
  revert i. induction n as [|n IH]; intros i Hall; simpl; [done|].
  destruct (l !! i) as [item|] eqn:Hi; [|done].
  assert (¬ cond item) as Hitem.
  { rewrite Forall_forall in Hall. apply Hall. by eapply list_elem_of_lookup_2. }
  destruct (cond item); [by destruct Hitem|]. by apply IH.
Qed.

Lemma filter_neg_clean (l : list A) :
  Forall (λ y, ¬ cond y) l → filter (λ y, ¬ cond y) l = l.
Proof.
  induction 1 as [|y t Hy _ IH]; [done|].
  by rewrite filter_cons_True, IH.
Qed.

Lemma filter_pos_nil_clean (l : list A) :
  filter (λ y, cond y) l = [] → Forall (λ y, ¬ cond y) l.
Proof.
  induction l as [|y t IH]; [constructor|].
  rewrite filter_cons. destruct (decide (cond y)); [done|].
  intros Ht. constructor; [done|by apply IH].
Qed.

(** With at most one element to remove, the loop is a filter. *)
Lemma remove_while_iterating_single (n : nat) (pre rest : list A) :
  Forall (λ y, ¬ cond y) pre →
  (length (filter (λ y, cond y) rest) ≤ 1)%nat →
  (length rest ≤ n)%nat →
  Py.remove_while_iterating cond n (length pre) (pre ++ rest)
  = pre ++ filter (λ y, ¬ cond y) rest.
Proof.
  revert n pre. induction rest as [|a rest IH]; intros n pre Hpre Hone Hn.
  - rewrite filter_nil, !app_nil_r. by apply remove_while_iterating_clean.
  - destruct n as [|n]; [simpl in Hn; lia|]. simpl.
    rewrite list_lookup_middle by done.
    rewrite filter_cons in Hone. rewrite filter_cons.
    destruct (cond a) eqn:Ha.
    + rewrite decide_True in Hone by done.
      rewrite decide_False by (simpl; tauto).
      assert (Forall (λ y, ¬ cond y) rest) as Hrest.
      { apply filter_pos_nil_clean. apply nil_length_inv. simpl in Hone. lia. }
      rewrite remove_app_notin.
      * rewrite remove_while_iterating_clean by (by apply Forall_app).
        by rewrite filter_neg_clean.
      * intros Hin. rewrite Forall_forall in Hpre.
        apply (Hpre a Hin). by rewrite Ha.
    + rewrite decide_False in Hone by (simpl; tauto).
      rewrite decide_True by (simpl; tauto).
      replace (pre ++ a :: rest) with ((pre ++ [a]) ++ rest)
        by (by rewrite <- app_assoc).
      replace (S (length pre)) with (length (pre ++ [a]))
        by (rewrite length_app; simpl; lia).
      rewrite IH.
      * by rewrite <- app_assoc.
      * apply Forall_app; split; [done|]. constructor; [rewrite Ha; simpl; tauto|constructor].
      * done.
      * simpl in Hn. lia.
Qed.

Lemma for_remove_single (l : list A) :
  (length (filter (λ y, cond y) l) ≤ 1)%nat →
  Py.for_remove cond l = filter (λ y, ¬ cond y) l.
Proof.
  intros Hone. unfold Py.for_remove.
  by apply (remove_while_iterating_single (length l) [] l).
Qed.

End ForRemove.

(** ** Enqueueing light and LED updates *)

(** What [Py.for_remove] leaves of a batch: a sublist that still holds every
    element the condition spares, and exactly those when at most one element
    of the batch is for the device [same_device] selects. *)
Lemma for_remove_spec {A : Type} `{EqDecision A} (cond : A → bool)
    (same_device : A → Prop) `{∀ x, Decision (same_device x)} (old : list A) :
  (∀ x, cond x → same_device x) →
  Py.for_remove cond old `sublist_of` old
  ∧ filter (λ x, ¬ cond x) (Py.for_remove cond old) = filter (λ x, ¬ cond x) old
  ∧ ((length (filter same_device old) ≤ 1)%nat →
     Py.for_remove cond old = filter (λ x, ¬ cond x) old).
Proof.
  intros Hdev. split; [apply remove_while_iterating_sublist|].
  split; [apply remove_while_iterating_keeps|].
  intros Hone. apply for_remove_single.
  etrans; [|exact Hone]. apply sublist_length.
  clear Hone. induction old as [|x t IH]; [done|].
  rewrite !filter_cons. destruct (decide (cond x)) as [Hc|Hc].
  - rewrite decide_True by by apply Hdev. by apply sublist_skip.
  - destruct (decide (same_device x)); [by apply sublist_cons|done].
Qed.

(** C2, as amended: an enqueue always appends the new record; what stays of
    the batch in front of it is a sublist of the old batch that loses no
    record of another device and no record of strictly higher priority; and
    when the old batch holds at most one record for the device, that record
    goes exactly when its priority is at most the new one's.  For light
    updates and for LED updates alike. *)
Theorem add_to_update_list_supersedes (c : ShowController) :
  (∀ light brightness fade_ms priority blend,
     ∃ kept,
       light_update_list
         (add_to_light_update_list light brightness fade_ms priority blend c)
       = kept ++ [LightUpdate.mk light brightness fade_ms priority blend]
       ∧ kept `sublist_of` light_update_list c
       ∧ filter (λ item, ¬ light_superseded light priority item) kept
         = filter (λ item, ¬ light_superseded light priority item)
             (light_update_list c)
       ∧ ((length (filter (λ item, LightUpdate.light item = light)
                     (light_update_list c)) ≤ 1)%nat →
          kept = filter (λ item, ¬ light_superseded light priority item)
                   (light_update_list c)))
  ∧ (∀ led color fade_ms priority blend,
       ∃ kept,
         led_update_list (add_to_led_update_list led color fade_ms priority blend c)
         = kept ++ [LedUpdate.mk led color fade_ms priority blend]
         ∧ kept `sublist_of` led_update_list c
         ∧ filter (λ item, ¬ led_superseded led priority item) kept
           = filter (λ item, ¬ led_superseded led priority item) (led_update_list c)
         ∧ ((length (filter (λ item, LedUpdate.led item = led)
                       (led_update_list c)) ≤ 1)%nat →
            kept = filter (λ item, ¬ led_superseded led priority item)
                     (led_update_list c))).
Proof.
  split.
  - intros light brightness fade_ms priority blend.
    exists (Py.for_remove (light_superseded light priority) (light_update_list c)).
    split; [done|].
    apply (for_remove_spec _ (λ item, LightUpdate.light item = light)).
    intros x Hx. unfold light_superseded in Hx.
    apply andb_prop_elim in Hx as [Hx _]. by apply bool_decide_unpack in Hx.
  - intros led color fade_ms priority blend.
    exists (Py.for_remove (led_superseded led priority) (led_update_list c)).
    split; [done|].
    apply (for_remove_spec _ (λ item, LedUpdate.led item = led)).
    intros x Hx. unfold led_superseded in Hx.
    apply andb_prop_elim in Hx as [Hx _]. by apply bool_decide_unpack in Hx.
Qed.

(** The amended C2 at a batch of one record: a new record of higher priority
    for the same light replaces it. *)
Lemma add_to_update_list_supersedes_witness :
  ∃ kept,
    light_update_list
      (add_to_light_update_list 0%nat 10 0 7 false
         (add_to_light_update_list 0%nat 255 0 5 false ShowController_init))
    = kept ++ [LightUpdate.mk 0%nat 10 0 7 false]
    ∧ kept = [].
Proof.
  destruct (add_to_update_list_supersedes
              (add_to_light_update_list 0%nat 255 0 5 false ShowController_init))
    as [Hlight _].
  destruct (Hlight 0%nat 10 0 7 false) as (kept & Heq & _ & _ & Hone).
  exists kept. split; [exact Heq|].
  rewrite Hone; [reflexivity|]. simpl. lia.
Defined.

(** C2 as stated fails: after a record of priority 5, a record of priority 3
    for the same light is appended behind it, and the batch holds two records
    for one device. *)
Lemma add_to_light_update_list_two_records :
  light_update_list
    (add_to_light_update_list 0%nat 10 0 3 false
       (add_to_light_update_list 0%nat 255 0 5 false ShowController_init))
  = [LightUpdate.mk 0%nat 255 0 5 false; LightUpdate.mk 0%nat 10 0 3 false].
Proof. reflexivity. Qed.

(** The loop skips the element behind one it removes: of two pending records
    for a light, both of priority at most the new one's, the second stays. *)
Example add_to_light_update_list_skips :
  light_update_list
    (add_to_light_update_list 0%nat 20 0 7 false
       (add_to_light_update_list 0%nat 10 0 3 false
          (add_to_light_update_list 0%nat 255 0 5 false ShowController_init)))
  = [LightUpdate.mk 0%nat 10 0 3 false; LightUpdate.mk 0%nat 20 0 7 false].
Proof. reflexivity. Qed.

(** ** Flushing the batches *)

Section FlushFacts.
Context (E : Env).

Lemma sc_do_call (c : call) (w : World) : sc (do_call E c w) = sc w.
Proof. done. Qed.

Lemma log_do_call (c : call) (w : World) : log (do_call E c w) = log w ++ [c].
Proof. done. Qed.

(** A loop that makes one call per element. *)
Lemma foldl_do_call {B : Type} (f : B → call) (l : list B) (w : World) :
  sc (foldl (λ w x, do_call E (f x) w) w l) = sc w
  ∧ devices (foldl (λ w x, do_call E (f x) w) w l)
    = devices_after E (map f l) (devices w)
  ∧ log (foldl (λ w x, do_call E (f x) w) w l) = log w ++ map f l.
Proof.
  revert w. induction l as [|x l IH]; intros w; simpl.
  - by rewrite app_nil_r.
  - destruct (IH (do_call E (f x) w)) as (-> & -> & ->).
    by rewrite log_do_call, <- app_assoc.
Qed.

Lemma foldl_light_on (l : list LightUpdate.t) (w : World) :
  sc (foldl (λ w item, do_call E (light_on_of item) w) w l) = sc w
  ∧ log (foldl (λ w item, do_call E (light_on_of item) w) w l)
    = log w ++ map light_on_of l.
Proof. by destruct (foldl_do_call light_on_of l w) as (? & _ & ?). Qed.

Lemma foldl_update_led (l : list LedUpdate.t) (w : World) :
  sc (foldl (update_led E) w l) = sc w
  ∧ log (foldl (update_led E) w l) = log w ++ led_calls E (devices w) l.
Proof.
  revert w. induction l as [|x l IH]; intros w; simpl.
  - by rewrite app_nil_r.
  - destruct (IH (update_led E w x)) as (-> & ->). unfold update_led.
    case_bool_decide; simpl; [|done]. by rewrite <- app_assoc.
Qed.

Lemma foldl_fire_coil (l : list (dev * coil_action)) (w : World) :
  sc (foldl (fire_coil E) w l) = sc w
  ∧ log (foldl (fire_coil E) w l)
    = log w ++ map (λ coil, coil_pulse coil.1 coil.2.2)
                 (filter (λ coil, coil.2.1 = "pulse") l).
Proof.
  revert w. induction l as [|x l IH]; intros w; simpl.
  - by rewrite app_nil_r.
  - destruct (IH (fire_coil E w x)) as (-> & ->). unfold fire_coil.
    rewrite filter_cons. case_bool_decide; simpl.
    + rewrite decide_True by done. simpl. by rewrite <- app_assoc.
    + by rewrite decide_False by done.
Qed.

End FlushFacts.

Lemma NoDup_map_inj {A B : Type} (f : A → B) (l : list A) :
  (∀ x y, x ∈ l → y ∈ l → f x = f y → x = y) → NoDup l → NoDup (map f l).
Proof.
  intros Hinj Hnd. induction Hnd as [|x l Hx Hnd IH]; simpl; constructor.
  - intros Hin. apply Hx.
    apply list_elem_of_In, in_map_iff in Hin as (y & Hy & Hin).
    apply list_elem_of_In in Hin.
    rewrite <- (Hinj y x); [done|set_solver|set_solver|done].
  - apply IH. intros y z Hy Hz. apply Hinj; set_solver.
Qed.

(** A batch of LED records is written in batch order, no record twice. *)
Lemma led_calls_sublist (E : Env) (σ : Devices) (l : list LedUpdate.t) :
  led_calls E σ l `sublist_of` map led_color_of l.
Proof.
  revert σ. induction l as [|x l IH]; intros σ; simpl; [done|].
  case_bool_decide; [by apply sublist_skip|by apply sublist_cons].
Qed.

(** The members of a set are served once each. *)
Lemma set_calls_NoDup (c : ShowController) :
  NoDup (coil_calls (coil_queue c))
  ∧ NoDup (map events_post (elements (event_queue c)))
  ∧ NoDup (map (λ gi, gi_enable gi.1 gi.2) (elements (gi_queue c)))
  ∧ NoDup (map flasher_flash (elements (flasher_queue c))).
Proof.
  split_and!.
  - unfold coil_calls. apply NoDup_map_inj.
    + intros [c1 [i1 p1]] [c2 [i2 p2]] [H1 _]%list_elem_of_filter
        [H2 _]%list_elem_of_filter Heq.
      simpl in *. congruence.
    + apply NoDup_filter, NoDup_elements.
  - apply NoDup_map_inj; [congruence|apply NoDup_elements].
  - apply NoDup_map_inj; [|apply NoDup_elements].
    intros [g1 v1] [g2 v2] _ _; simpl; congruence.
  - apply NoDup_map_inj; [congruence|apply NoDup_elements].
Qed.

Lemma flush_calls_length (E : Env) (σ : Devices) (c : ShowController) :
  (length (flush_calls E σ c) ≤ pending_count c)%nat.
Proof.
  assert (∀ a b b' c c' d e f g : nat,
            (b ≤ b')%nat → (c ≤ c')%nat →
            (a + (b + (c + (d + (e + (f + g))))) ≤ a + b' + c' + d + e + f + g)%nat)
    as Hsum by (intros; lia).
  unfold flush_calls, pending_count, coil_calls.
  rewrite !length_app, !length_map. apply Hsum.
  - rewrite <- (length_map led_color_of (led_update_list c)).
    apply sublist_length, led_calls_sublist.
  - apply length_filter.
Qed.

Section DoUpdate.
Context (E : Env).

Ltac already_empty w :=
  destruct w as [[] ? ? ?]; simpl in *; subst; reflexivity.

Lemma flush_lights (w : World) :
  let w' := when (bool_decide (light_update_list (sc w) ≠ [])) (_update_lights E) w in
  sc w' = set_light_update_list [] (sc w)
  ∧ devices w' = devices_after E (map light_on_of (light_update_list (sc w))) (devices w)
  ∧ log w' = log w ++ map light_on_of (light_update_list (sc w)).
Proof.
  unfold when. case_bool_decide as Hq; cbv zeta.
  - destruct (foldl_do_call E light_on_of (light_update_list (sc w)) w)
      as (Hsc & Hdev & Hlog).
    unfold _update_lights. simpl. by rewrite Hsc, Hdev, Hlog.
  - rewrite Hq. simpl. rewrite app_nil_r. split; [already_empty w|done].
Qed.

Lemma flush_leds (w : World) :
  let w' := when (bool_decide (led_update_list (sc w) ≠ [])) (_update_leds E) w in
  sc w' = set_led_update_list [] (sc w)
  ∧ log w' = log w ++ led_calls E (devices w) (led_update_list (sc w)).
Proof.
  unfold when. case_bool_decide as Hq; cbv zeta.
  - destruct (foldl_update_led E (led_update_list (sc w)) w) as (Hsc & Hlog).
    unfold _update_leds. simpl. by rewrite Hsc, Hlog.
  - rewrite Hq. simpl. rewrite app_nil_r. split; [already_empty w|done].
Qed.

Lemma flush_coils (w : World) :
  let w' := when (bool_decide (coil_queue (sc w) ≠ ∅)) (_fire_coils E) w in
  sc w' = set_coil_queue ∅ (sc w)
  ∧ log w' = log w ++ coil_calls (coil_queue (sc w)).
Proof.
  unfold when. case_bool_decide as Hq; cbv zeta.
  - destruct (foldl_fire_coil E (elements (coil_queue (sc w))) w) as (Hsc & Hlog).
    unfold _fire_coils, coil_calls. simpl. by rewrite Hsc, Hlog.
  - rewrite Hq. unfold coil_calls. rewrite elements_empty. simpl.
    rewrite app_nil_r. split; [already_empty w|done].
Qed.

Lemma flush_events (w : World) :
  let w' := when (bool_decide (event_queue (sc w) ≠ ∅)) (_fire_events E) w in
  sc w' = set_event_queue ∅ (sc w)
  ∧ log w' = log w ++ map events_post (elements (event_queue (sc w))).
Proof.
  unfold when. case_bool_decide as Hq; cbv zeta.
  - destruct (foldl_do_call E events_post (elements (event_queue (sc w))) w)
      as (Hsc & _ & Hlog).
    unfold _fire_events. simpl. by rewrite Hsc, Hlog.
  - rewrite Hq, elements_empty. simpl.
    rewrite app_nil_r. split; [already_empty w|done].
Qed.

Lemma flush_gis (w : World) :
  let w' := when (bool_decide (gi_queue (sc w) ≠ ∅)) (_update_gis E) w in
  sc w' = set_gi_queue ∅ (sc w)
  ∧ log w' = log w ++ map (λ gi, gi_enable gi.1 gi.2) (elements (gi_queue (sc w))).
Proof.
  unfold when. case_bool_decide as Hq; cbv zeta.
  - destruct (foldl_do_call E (λ gi : dev * Z, gi_enable gi.1 gi.2)
                (elements (gi_queue (sc w))) w) as (Hsc & _ & Hlog).
    unfold _update_gis. simpl. by rewrite Hsc, Hlog.
  - rewrite Hq, elements_empty. simpl.
    rewrite app_nil_r. split; [already_empty w|done].
Qed.

Lemma flush_flashers (w : World) :
  let w' := when (bool_decide (flasher_queue (sc w) ≠ ∅)) (_update_flashers E) w in
  sc w' = set_flasher_queue ∅ (sc w)
  ∧ log w' = log w ++ map flasher_flash (elements (flasher_queue (sc w))).
Proof.
  unfold when. case_bool_decide as Hq; cbv zeta.
  - destruct (foldl_do_call E flasher_flash (elements (flasher_queue (sc w))) w)
      as (Hsc & _ & Hlog).
    unfold _update_flashers. simpl. by rewrite Hsc, Hlog.
  - rewrite Hq, elements_empty. simpl.
    rewrite app_nil_r. split; [already_empty w|done].
Qed.

Lemma flush_triggers (w : World) :
  let w' := when (bool_decide (trigger_queue (sc w) ≠ [])) (_fire_triggers E) w in
  sc w' = set_trigger_queue [] (sc w)
  ∧ log w' = log w ++ map (λ t, bcp_trigger t.1 t.2) (trigger_queue (sc w)).
Proof.
  unfold when. case_bool_decide as Hq; cbv zeta.
  - destruct (foldl_do_call E (λ t : trigger, bcp_trigger t.1 t.2)
                (trigger_queue (sc w)) w) as (Hsc & _ & Hlog).
    unfold _fire_triggers, with_sc. cbn [sc log].
    split; [f_equal; exact Hsc|exact Hlog].
  - rewrite Hq. simpl. rewrite app_nil_r. split; [already_empty w|done].
Qed.

(** What [_do_update] leaves: the seven collections emptied, everything else
    in the controller as it was, and the calls of [flush_calls] made. *)
Lemma do_update_spec (w : World) :
  sc (_do_update E w)
  = set_trigger_queue [] (set_flasher_queue ∅ (set_gi_queue ∅ (set_event_queue ∅
      (set_coil_queue ∅ (set_led_update_list [] (set_light_update_list [] (sc w)))))))
  ∧ log (_do_update E w) = log w ++ flush_calls E (devices w) (sc w).
Proof.
  unfold _do_update.
  destruct (flush_lights w) as (H1 & D1 & L1).
  set (w1 := when _ (_update_lights E) w) in *. clearbody w1.
  destruct (flush_leds w1) as (H2 & L2).
  set (w2 := when _ (_update_leds E) w1) in *. clearbody w2.
  destruct (flush_coils w2) as (H3 & L3).
  set (w3 := when _ (_fire_coils E) w2) in *. clearbody w3.
  destruct (flush_events w3) as (H4 & L4).
  set (w4 := when _ (_fire_events E) w3) in *. clearbody w4.
  destruct (flush_gis w4) as (H5 & L5).
  set (w5 := when _ (_update_gis E) w4) in *. clearbody w5.
  destruct (flush_flashers w5) as (H6 & L6).
  set (w6 := when _ (_update_flashers E) w5) in *. clearbody w6.
  destruct (flush_triggers w6) as (H7 & L7).
  set (w7 := when _ (_fire_triggers E) w6) in *. clearbody w7.
  rewrite H6 in H7, L7. rewrite H5 in H7, L7, L6. rewrite H4 in H7, L7, L6, L5.
  rewrite H3 in H7, L7, L6, L5, L4. rewrite H2 in H7, L7, L6, L5, L4, L3.
  rewrite H1 in H7, L7, L6, L5, L4, L3, L2.
  split; [exact H7|].
  rewrite L7, L6, L5, L4, L3, L2, L1, D1. unfold flush_calls.
  cbn [led_update_list coil_queue event_queue gi_queue flasher_queue
       trigger_queue light_update_list set_light_update_list
       set_led_update_list set_coil_queue set_event_queue set_gi_queue
       set_flasher_queue].
  by rewrite <- !app_assoc.
Qed.

End DoUpdate.

Lemma tick_as_do_update (E : Env) (now : float) (w : World) :
  _tick E now w = _do_update E (tick_before_update E now w).
Proof. reflexivity. Qed.

(** C10: when [_do_update] returns, and so at the end of every [_tick], the
    seven pending collections are empty whatever they held before.  The
    calls made are exactly those of [flush_calls]: one [light.on] per
    pending light record, in batch order; the [led.color] calls of the LED
    records that pass the gate, in batch order and none twice; one [pulse]
    per queued ['pulse'] pair, one [post] per queued event, one [enable] per
    queued GI pair and one [flash] per queued flasher, no member of a set
    served twice; one [bcp_trigger] per queued trigger, in queue order.  So
    no pending item is processed more than once. *)
Theorem do_update_empties_pending (E : Env) (w : World) :
  let emptied (c : ShowController) :=
    light_update_list c = [] ∧ led_update_list c = [] ∧ coil_queue c = ∅
    ∧ event_queue c = ∅ ∧ gi_queue c = ∅ ∧ flasher_queue c = ∅
    ∧ trigger_queue c = [] in
  emptied (sc (_do_update E w))
  ∧ log (_do_update E w) = log w ++ flush_calls E (devices w) (sc w)
  ∧ (∀ σ c,
       led_calls E σ (led_update_list c) `sublist_of` map led_color_of (led_update_list c)
       ∧ NoDup (coil_calls (coil_queue c))
       ∧ NoDup (map events_post (elements (event_queue c)))
       ∧ NoDup (map (λ gi, gi_enable gi.1 gi.2) (elements (gi_queue c)))
       ∧ NoDup (map flasher_flash (elements (flasher_queue c)))
       ∧ (length (flush_calls E σ c) ≤ pending_count c)%nat)
  ∧ (∀ now,
       emptied (sc (_tick E now w))
       ∧ log (_tick E now w)
         = log (tick_before_update E now w)
           ++ flush_calls E (devices (tick_before_update E now w))
                (sc (tick_before_update E now w))).
Proof.
  assert (∀ w, light_update_list (sc (_do_update E w)) = []
               ∧ led_update_list (sc (_do_update E w)) = []
               ∧ coil_queue (sc (_do_update E w)) = ∅
               ∧ event_queue (sc (_do_update E w)) = ∅
               ∧ gi_queue (sc (_do_update E w)) = ∅
               ∧ flasher_queue (sc (_do_update E w)) = ∅
               ∧ trigger_queue (sc (_do_update E w)) = []) as Hempty.
  { intros w0. destruct (do_update_spec E w0) as [-> _]. repeat split; reflexivity. }
  cbv beta zeta. split; [apply Hempty|]. split; [|split].
  - by destruct (do_update_spec E w) as [_ ?].
  - intros σ c. destruct (set_calls_NoDup c) as (? & ? & ? & ?).
    split_and!; [apply led_calls_sublist|done..|apply flush_calls_length].
  - intros now. rewrite tick_as_do_update. split; [apply Hempty|].
    by destruct (do_update_spec E (tick_before_update E now w)) as [_ ?].
Qed.

(** ** The priority gate of the flush *)

Lemma foldl_update_led_steady (E : Env) (l : list LedUpdate.t) (w : World) :
  (∀ c d led, led_state_priority (device_effect E c d) led = led_state_priority d led) →
  (∀ led, led_state_priority (devices (foldl (update_led E) w l)) led
          = led_state_priority (devices w) led)
  ∧ log (foldl (update_led E) w l)
    = log w ++ map led_color_of
                 (filter (λ item, led_state_priority (devices w) (LedUpdate.led item)
                                  ≤ LedUpdate.priority item) l).
Proof.
  intros Hsteady. revert w. induction l as [|x l IH]; intros w; simpl.
  - by rewrite app_nil_r.
  - destruct (IH (update_led E w x)) as [Hdev Hlog].
    assert (∀ led, led_state_priority (devices (update_led E w x)) led
                   = led_state_priority (devices w) led) as Hstep.
    { intros led. unfold update_led. case_bool_decide; [apply Hsteady|done]. }
    split; [intros led; by rewrite Hdev, Hstep|].
    rewrite Hlog. rewrite filter_cons.
    erewrite (list_filter_iff _ (λ item, led_state_priority (devices w) (LedUpdate.led item)
                                       ≤ LedUpdate.priority item));
      [|intros item; by rewrite Hstep].
    unfold update_led. case_bool_decide as Hgate.
    + rewrite decide_True by done. simpl. by rewrite <- app_assoc.
    + by rewrite decide_False by done.
Qed.

(** C1, as amended: [_update_lights] hands every pending light record to
    [light.on], whatever its priority; [_update_leds] hands a pending LED
    record to [led.color] exactly when its priority is at least the
    priority in the LED's [state] at the moment the record is reached, and
    otherwise makes no call for it.  When the device layer leaves the
    [state] priorities alone, the calls are those of the records that pass
    the gate, in batch order. *)
Theorem flush_priority_gate (E : Env) (w : World) :
  log (_update_lights E w) = log w ++ map light_on_of (light_update_list (sc w))
  ∧ (∀ before item after,
       led_update_list (sc w) = before ++ item :: after →
       let w1 := foldl (update_led E) w before in
       let w2 := update_led E w1 item in
       _update_leds E w
       = with_sc (set_led_update_list []) (foldl (update_led E) w2 after)
       ∧ log w2
         = log w1
           ++ (if bool_decide (led_state_priority (devices w1) (LedUpdate.led item)
                               ≤ LedUpdate.priority item)
               then [led_color_of item] else []))
  ∧ ((∀ c d led,
        led_state_priority (device_effect E c d) led = led_state_priority d led) →
     log (_update_leds E w)
     = log w ++ map led_color_of
                  (filter (λ item, led_state_priority (devices w) (LedUpdate.led item)
                                   ≤ LedUpdate.priority item)
                     (led_update_list (sc w)))).
Proof.
  split; [|split].
  - unfold _update_lights. simpl.
    by destruct (foldl_light_on E (light_update_list (sc w)) w) as [_ ->].
  - intros before item after Hlist. simpl. split.
    + unfold _update_leds. by rewrite Hlist, foldl_app.
    + unfold update_led. case_bool_decide; [done|by rewrite app_nil_r].
  - intros Hsteady. unfold _update_leds. simpl.
    by destruct (foldl_update_led_steady E (led_update_list (sc w)) w Hsteady)
      as [_ ->].
Qed.

(** The amended C1 on a batch of two LED records, of priority 1 and 7, for
    LEDs whose state priority is 5: only the second is written. *)
Lemma flush_priority_gate_witness :
  log (_update_leds quiet_env
         (World_with
            (set_led_update_list
               [LedUpdate.mk 0%nat (255, 0, 0) 0 1 false;
                LedUpdate.mk 1%nat (0, 255, 0) 0 7 true] ShowController_init) 5))
  = [led_color 1%nat (0, 255, 0) 0 7 true false].
Proof.
  destruct (flush_priority_gate quiet_env
              (World_with
                 (set_led_update_list
                    [LedUpdate.mk 0%nat (255, 0, 0) 0 1 false;
                     LedUpdate.mk 1%nat (0, 255, 0) 0 7 true] ShowController_init) 5))
    as (_ & _ & Hgate).
  rewrite Hgate; [reflexivity|]. intros c d led. reflexivity.
Defined.

(** C1 as stated fails for lights: a pending light record of priority 1 is
    written to a light whose cached priority is 5. *)
Lemma update_lights_has_no_gate :
  LightUpdate.priority (LightUpdate.mk 0%nat 255 0 1 false)
  < light_cache_priority
      (devices (World_with
                  (set_light_update_list [LightUpdate.mk 0%nat 255 0 1 false]
                     ShowController_init) 5))
      (LightUpdate.light (LightUpdate.mk 0%nat 255 0 1 false))
  ∧ log (_do_update quiet_env
           (World_with
              (set_light_update_list [LightUpdate.mk 0%nat 255 0 1 false]
                 ShowController_init) 5))
    = [light_on 0%nat 255 0 1 false].
Proof. split; [simpl; lia|]. vm_compute. reflexivity. Qed.

(** ** Starting a show *)

Lemma insert_by_perm {A : Type} (key : A → Z) (x : A) (l : list A) :
  insert_by key x l ≡ₚ x :: l.
Proof.
  induction l as [|y t IH]; simpl; [done|].
  destruct (key x <=? key y); [done|].
  rewrite IH. apply Permutation_swap.
Qed.

Lemma sort_by_perm {A : Type} (key : A → Z) (l : list A) : sort_by key l ≡ₚ l.
Proof.
  induction l as [|x t IH]; [done|].
  unfold sort_by in *. simpl. by rewrite insert_by_perm, IH.
Qed.

Lemma run_show_running (show : show_id) (w : World) :
  show ∈ running_shows (sc w) → _run_show show w = w.
Proof. intros Hin. unfold _run_show. by rewrite bool_decide_eq_true_2. Qed.

Lemma run_show_shows (show : show_id) (w : World) :
  running_shows (sc (_run_show show w)) ≡ₚ
    (if bool_decide (show ∈ running_shows (sc w)) then running_shows (sc w)
     else running_shows (sc w) ++ [show]).
Proof.
  unfold _run_show. case_bool_decide; [done|].
  case_bool_decide; simpl; apply sort_by_perm.
Qed.

Lemma run_show_other (show other : show_id) (w : World) :
  other ∈ running_shows (sc w) → shows (_run_show show w) other = shows w other.
Proof.
  intros Hin. unfold _run_show. case_bool_decide as Hshow; [done|].
  assert (show ≠ other) by (by intros ->).
  case_bool_decide; simpl; by rewrite !fn_lookup_insert_ne.
Qed.

(** What a call for a show that is not running sets. *)
Lemma run_show_fresh (show : show_id) (w : World) :
  show ∉ running_shows (sc w) →
  Show.running (shows (_run_show show w) show) = true
  ∧ Show.ending (shows (_run_show show w) show) = false
  ∧ Show.current_loop_number (shows (_run_show show w) show) = 0%Z
  ∧ Show.next_step_time (shows (_run_show show w) show)
    = (if bool_decide (Show.sync_ms (shows w show) ≠ 0)
       then PrimFloat.add (current_tick_time (sc w))
              (ms_to_seconds (Show.sync_ms (shows w show)))
       else current_tick_time (sc w)).
Proof.
  intros Hout. unfold _run_show. rewrite bool_decide_eq_false_2 by done.
  simpl. rewrite !fn_lookup_insert. simpl.
  case_bool_decide; simpl; by rewrite ?fn_lookup_insert.
Qed.

Lemma count_none {A : Type} `{EqDecision A} (x : A) (l : list A) :
  x ∉ l → filter (λ y, y = x) l = [].
Proof.
  induction l as [|y t IH]; intros Hout; [done|].
  rewrite filter_cons, decide_False by set_solver. apply IH. set_solver.
Qed.

Lemma count_one {A : Type} `{EqDecision A} (x : A) (l : list A) :
  NoDup l → x ∈ l → length (filter (λ y, y = x) l) = 1%nat.
Proof.
  induction 1 as [|y t Hy Hnd IH]; intros Hin; [by apply elem_of_nil in Hin|].
  rewrite filter_cons. destruct (decide (y = x)) as [->|Hne].
  - simpl. by rewrite count_none.
  - apply IH. set_solver.
Qed.

(** The running set stays free of repetitions. *)
Lemma apply_op_NoDup (o : sc_op) (w : World) :
  NoDup (running_shows (sc w)) → NoDup (running_shows (sc (apply_op w o))).
Proof.
  intros Hnd. destruct o as [show|now]; simpl; [|done].
  rewrite run_show_shows. case_bool_decide as Hin; [done|].
  apply NoDup_app. split; [done|]. split; [|apply NoDup_singleton].
  intros x Hx. by intros ->%list_elem_of_singleton.
Qed.

(** A running show stays running, with its attributes untouched, whatever
    other shows are started and however the clock moves. *)
Lemma apply_op_keeps (show : show_id) (o : sc_op) (w : World) :
  show ∈ running_shows (sc w) →
  show ∈ running_shows (sc (apply_op w o))
  ∧ shows (apply_op w o) show = shows w show.
Proof.
  intros Hin. destruct o as [other|now]; simpl; [|done]. split.
  - rewrite run_show_shows. case_bool_decide; set_solver.
  - by apply run_show_other.
Qed.

Lemma foldl_apply_op_keeps (show : show_id) (ops : list sc_op) (w : World) :
  NoDup (running_shows (sc w)) → show ∈ running_shows (sc w) →
  NoDup (running_shows (sc (foldl apply_op w ops)))
  ∧ show ∈ running_shows (sc (foldl apply_op w ops))
  ∧ shows (foldl apply_op w ops) show = shows w show.
Proof.
  revert w. induction ops as [|o ops IH]; intros w Hnd Hin; simpl; [done|].
  destruct (apply_op_keeps show o w Hin) as [Hin' Hsame].
  destruct (IH (apply_op w o) (apply_op_NoDup o w Hnd) Hin') as (? & ? & ->).
  done.
Qed.

(** C9: once [_run_show] has been called for a show, calling it again,
    after any number of [_run_show] calls (for any shows) and clock updates
    but no stop, changes nothing at all; the show is in [running_shows]
    exactly once, and its [next_step_time], [running] flag and loop counter
    are those the first call left. *)
Theorem run_show_idempotent (show : show_id) (between : list sc_op) (w : World) :
  NoDup (running_shows (sc w)) →
  let w1 := _run_show show w in
  let w2 := foldl apply_op w1 between in
  _run_show show w2 = w2
  ∧ length (filter (λ x, x = show) (running_shows (sc (_run_show show w2)))) = 1%nat
  ∧ Show.next_step_time (shows (_run_show show w2) show)
    = Show.next_step_time (shows w1 show)
  ∧ Show.running (shows (_run_show show w2) show) = Show.running (shows w1 show)
  ∧ Show.current_loop_number (shows (_run_show show w2) show)
    = Show.current_loop_number (shows w1 show).
Proof.
  intros Hnd w1 w2.
  assert (NoDup (running_shows (sc w1))) as Hnd1
    by apply (apply_op_NoDup (op_run_show show) w Hnd).
  assert (show ∈ running_shows (sc w1)) as Hin1.
  { unfold w1. rewrite run_show_shows. case_bool_decide; set_solver. }
  destruct (foldl_apply_op_keeps show between w1 Hnd1 Hin1) as (Hnd2 & Hin2 & Hsame).
  fold w2 in Hnd2, Hin2, Hsame.
  rewrite (run_show_running show w2 Hin2), Hsame.
  split; [done|]. split; [by apply count_one|done].
Qed.

(** C9 on the machine of [World_init]: show 1 is started, then show 2, the
    clock moves, and show 1 is started again. *)
Lemma run_show_idempotent_witness :
  length (filter (λ x, x = 1%nat)
            (running_shows
               (sc (_run_show 1%nat
                      (foldl apply_op (_run_show 1%nat World_init)
                         [op_run_show 2%nat; op_clock 1%float]))))) = 1%nat.
Proof.
  refine (proj1 (proj2 (run_show_idempotent 1%nat
                          [op_run_show 2%nat; op_clock 1%float] World_init _))).
  simpl. apply NoDup_nil_2.
Defined.

(** ** Ending a show *)

Section RestoreFacts.
Context (E : Env) (Hlocal : restore_is_local E).

Lemma foldl_restore_light (p : Z) (σ0 : Devices) (l : list dev) (w : World) :
  NoDup l →
  (∀ d, d ∈ l → light_cache_priority (devices w) d = light_cache_priority σ0 d) →
  let w' := foldl (restore_light E p) w l in
  sc w' = sc w ∧ shows w' = shows w
  ∧ (∀ d, led_cache_priority (devices w') d = led_cache_priority (devices w) d)
  ∧ log w' = log w ++ map light_restore
                        (filter (λ d, light_cache_priority σ0 d ≤ p) l).
Proof.
  destruct Hlocal as (Hll & Hlled & _).
  revert w. induction l as [|x l IH]; intros w Hnd Hsame; simpl.
  - by rewrite app_nil_r.
  - apply NoDup_cons in Hnd as [Hx Hnd].
    assert (sc (restore_light E p w x) = sc w
            ∧ shows (restore_light E p w x) = shows w
            ∧ (∀ d, led_cache_priority (devices (restore_light E p w x)) d
                    = led_cache_priority (devices w) d)
            ∧ (∀ d, d ∈ l →
                    light_cache_priority (devices (restore_light E p w x)) d
                    = light_cache_priority σ0 d)
            ∧ log (restore_light E p w x)
              = log w ++ (if bool_decide (light_cache_priority σ0 x ≤ p)
                          then [light_restore x] else [])) as (S1 & S2 & S3 & S4 & S5).
    { unfold restore_light. rewrite (Hsame x) by set_solver.
      case_bool_decide; simpl.
      - split_and!; [done|done|intros d; apply Hlled| |done]. intros d Hd.
        rewrite Hll by (by intros ->). apply Hsame. set_solver.
      - split_and!; [done|done|done| |by rewrite app_nil_r].
        intros d Hd. apply Hsame. set_solver. }
    destruct (IH (restore_light E p w x) Hnd S4) as (I1 & I2 & I3 & I4).
    simpl in *. rewrite I1, I2, I4, S1, S2, S5. repeat split.
    + intros d. by rewrite I3, S3.
    + rewrite filter_cons. case_bool_decide.
      * rewrite decide_True by done. simpl. by rewrite <- app_assoc.
      * rewrite decide_False by done. by rewrite app_nil_r.
Qed.

Lemma foldl_restore_led (p : Z) (σ0 : Devices) (l : list dev) (w : World) :
  NoDup l →
  (∀ d, d ∈ l → led_cache_priority (devices w) d = led_cache_priority σ0 d) →
  let w' := foldl (restore_led E p) w l in
  sc w' = sc w ∧ shows w' = shows w
  ∧ log w' = log w ++ map led_restore
                        (filter (λ d, led_cache_priority σ0 d ≤ p) l).
Proof.
  destruct Hlocal as (_ & _ & Hll).
  revert w. induction l as [|x l IH]; intros w Hnd Hsame; simpl.
  - by rewrite app_nil_r.
  - apply NoDup_cons in Hnd as [Hx Hnd].
    assert (sc (restore_led E p w x) = sc w
            ∧ shows (restore_led E p w x) = shows w
            ∧ (∀ d, d ∈ l →
                    led_cache_priority (devices (restore_led E p w x)) d
                    = led_cache_priority σ0 d)
            ∧ log (restore_led E p w x)
              = log w ++ (if bool_decide (led_cache_priority σ0 x ≤ p)
                          then [led_restore x] else [])) as (S1 & S2 & S4 & S5).
    { unfold restore_led. rewrite (Hsame x) by set_solver.
      case_bool_decide; simpl.
      - split_and!; [done|done| |done]. intros d Hd.
        rewrite Hll by (by intros ->). apply Hsame. set_solver.
      - split_and!; [done|done| |by rewrite app_nil_r].
        intros d Hd. apply Hsame. set_solver. }
    destruct (IH (restore_led E p w x) Hnd S4) as (I1 & I2 & I4).
    simpl in *. rewrite I1, I2, I4, S1, S2, S5. repeat split.
    rewrite filter_cons. case_bool_decide.
    + rewrite decide_True by done. simpl. by rewrite <- app_assoc.
    + rewrite decide_False by done. by rewrite app_nil_r.
Qed.

End RestoreFacts.

Lemma foldl_resync_lower (E : Env) (p : Z) (l : list show_id) (w : World) :
  let w' := foldl (resync_lower E p) w l in
  sc w' = sc w ∧ shows w' = shows w
  ∧ log w' = log w ++ map show_resync
                        (filter (λ o, Show.priority (shows w o) < p) l).
Proof.
  revert w. induction l as [|x l IH]; intros w; simpl.
  - by rewrite app_nil_r.
  - destruct (IH (resync_lower E p w x)) as (I1 & I2 & I3). simpl in *.
    rewrite I1, I2, I3. unfold resync_lower. rewrite filter_cons.
    case_bool_decide; simpl.
    + rewrite decide_True by done. simpl. by rewrite <- app_assoc.
    + by rewrite decide_False by done.
Qed.

Lemma restore_lower_lights_calls (E : Env) (show : show_id) (w : World) :
  restore_is_local E →
  NoDup (Show.light_states (shows w show)) →
  NoDup (Show.led_states (shows w show)) →
  let p := Show.priority (shows w show) in
  let w' := restore_lower_lights E show w in
  sc w' = sc w ∧ shows w' = shows w
  ∧ log w'
    = log w
      ++ map light_restore
           (filter (λ d, light_cache_priority (devices w) d ≤ p)
              (Show.light_states (shows w show)))
      ++ map led_restore
           (filter (λ d, led_cache_priority (devices w) d ≤ p)
              (Show.led_states (shows w show)))
      ++ map show_resync
           (filter (λ o, Show.priority (shows w o) < p) (running_shows (sc w))).
Proof.
  intros Hlocal Hnl Hnd. simpl. unfold restore_lower_lights.
  destruct (foldl_restore_light E Hlocal (Show.priority (shows w show)) (devices w)
              (Show.light_states (shows w show)) w Hnl (λ _ _, eq_refl))
    as (A1 & A2 & A3 & A4).
  simpl in *. set (w1 := foldl (restore_light E _) w _) in *.
  rewrite A2.
  destruct (foldl_restore_led E Hlocal (Show.priority (shows w show)) (devices w)
              (Show.led_states (shows w show)) w1 Hnd (λ d _, A3 d))
    as (B1 & B2 & B4).
  simpl in *. set (w2 := foldl (restore_led E _) w1 _) in *.
  destruct (foldl_resync_lower E (Show.priority (shows w show))
              (running_shows (sc w2)) w2) as (C1 & C2 & C3).
  simpl in *. rewrite C1, C2, C3, B1, B2, B4, A1, A2, A4.
  by rewrite <- !app_assoc.
Qed.

(** C5: a show that is stopped without [hold] has [restore()] called on
    exactly the lights and LEDs of its [light_states] and [led_states] whose
    cached priority is at most the show's priority, and [resync()] on exactly
    the other shows still running whose priority is strictly lower; after
    these come only the show's own callback, if it has one. *)
Theorem end_show_restores_lower (E : Env) (show : show_id) (reset : option bool)
    (w : World) :
  restore_is_local E →
  NoDup (Show.light_states (shows w show)) →
  NoDup (Show.led_states (shows w show)) →
  Show.hold (shows w show) = false →
  let p := Show.priority (shows w show) in
  log (_end_show E show reset w)
  = log w
    ++ map light_restore
         (filter (λ d, light_cache_priority (devices w) d ≤ p)
            (Show.light_states (shows w show)))
    ++ map led_restore
         (filter (λ d, led_cache_priority (devices w) d ≤ p)
            (Show.led_states (shows w show)))
    ++ map show_resync
         (filter (λ o, Show.priority (shows w o) < p)
            (filter (λ o, o ≠ show) (running_shows (sc w))))
    ++ match Show.callback (shows w show) with
       | Some cb => [show_callback show cb]
       | None => []
       end.
Proof.
  intros Hlocal Hnl Hnd Hhold. cbv zeta. unfold _end_show.
  set (w0 := with_sc _ w).
  assert (shows w0 = shows w) as Hs0 by done.
  rewrite Hs0, Hhold.
  destruct (restore_lower_lights_calls E show w0 Hlocal) as (R1 & R2 & R3);
    [by rewrite Hs0..|].
  cbv zeta in R1, R2, R3. set (w1 := restore_lower_lights E show w0) in *.
  clearbody w1. rewrite Hs0 in R2, R3.
  assert (log w1
          = log w
            ++ map light_restore
                 (filter (λ d, light_cache_priority (devices w) d
                               ≤ Show.priority (shows w show))
                    (Show.light_states (shows w show)))
            ++ map led_restore
                 (filter (λ d, led_cache_priority (devices w) d
                               ≤ Show.priority (shows w show))
                    (Show.led_states (shows w show)))
            ++ map show_resync
                 (filter (λ o, Show.priority (shows w o) < Show.priority (shows w show))
                    (filter (λ o, o ≠ show) (running_shows (sc w))))) as Hlog by done.
  clear R3 R1.
  set (this_reset := match reset with Some r => r | None => Show.reset (shows w1 show) end).
  set (w2 := if this_reset then with_show show (Show.set_current_step 0) w1 else w1).
  assert (log w2 = log w1
          ∧ Show.callback (shows w2 show) = Show.callback (shows w show)) as [Hl2 Hc2].
  { unfold w2. destruct this_reset; simpl; rewrite ?fn_lookup_insert, R2; done. }
  clearbody w2. simpl. rewrite fn_lookup_insert. simpl. rewrite Hc2.
  destruct (Show.callback (shows w show)); simpl; rewrite Hl2, Hlog.
  - by rewrite <- !app_assoc.
  - by rewrite app_nil_r.
Qed.

Lemma quiet_env_local : restore_is_local quiet_env.
Proof. by split_and!. Qed.

(** C5 on [World_c5]: show 1 (priority 10) touched lights 0 and 1 and LED 7;
    light 1 is cached at priority 20 and is left alone; of the two other
    running shows only show 2 (priority 5) is asked to resync. *)
Lemma end_show_restores_lower_witness :
  log (_end_show quiet_env 1%nat None World_c5)
  = [light_restore 0%nat; led_restore 7%nat; show_resync 2%nat].
Proof.
  rewrite (end_show_restores_lower quiet_env 1%nat None World_c5 quiet_env_local).
  - reflexivity.
  - simpl. apply NoDup_cons. split; [by intros ?%list_elem_of_singleton|].
    apply NoDup_singleton.
  - simpl. apply NoDup_singleton.
  - reflexivity.
Defined.

(** ** Shots *)

Lemma index_in_range {A : Type} (l : list A) (i : Z) :
  0 ≤ i < Z.of_nat (length l) → is_Some (Py.index l i).
Proof.
  intros [Hlo Hhi]. unfold Py.index.
  destruct (0 <=? i) eqn:Hi; [|lia]. apply lookup_lt_is_Some. lia.
Qed.

Section ShotFacts.
Context (E : Shot.ShowEnv).
(** Every show a profile names is registered. *)
Context (Hplay : ∀ show args, is_Some (Shot.play E show args)).

Lemma only_show_refl (s : Shot.t) : Shot.only_show_changed s s.
Proof. by destruct s. Qed.

Lemma only_show_set (rs : option Shot.RunningShow) (s : Shot.t) :
  Shot.only_show_changed s (Shot.set_running_show rs s).
Proof. done. Qed.

Lemma only_show_trans (s1 s2 s3 : Shot.t) :
  Shot.only_show_changed s1 s2 → Shot.only_show_changed s2 s3 → Shot.only_show_changed s1 s3.
Proof. unfold Shot.only_show_changed. intros -> ->. done. Qed.

Lemma stop_show_only (s : Shot.t) : Shot.only_show_changed s (Shot._stop_show s).1.
Proof.
  unfold Shot._stop_show. destruct (Shot.running_show s) eqn:Hrs; simpl;
    [apply only_show_set|apply only_show_refl].
Qed.

Lemma play_show_ok (settings : Shot.StateSettings) (start_step : option Z) (s : Shot.t) :
  ∃ s' cs, Shot._play_show E settings start_step s = Py.Ok (s', cs)
           ∧ Shot.only_show_changed s s'.
Proof.
  unfold Shot._play_show.
  match goal with |- context [Shot.play E ?n ?a] => destruct (Hplay n a) as [rs ->] end.
  simpl. eexists _, _. split; [done|apply only_show_set].
Qed.

Lemma restart_ok (settings : Shot.StateSettings) (start_step : option Z) (s : Shot.t) :
  ∃ s' cs, Shot.restart E settings start_step s = Py.Ok (s', cs)
           ∧ Shot.only_show_changed s s'.
Proof.
  unfold Shot.restart. pose proof (stop_show_only s) as Hstop.
  destruct (Shot._stop_show s) as [s1 stopped]. simpl in Hstop.
  destruct (play_show_ok settings start_step s1) as (s' & cs & -> & Hs').
  simpl. eexists _, _. split; [done|]. by eapply only_show_trans.
Qed.

(** [_update_show] succeeds on a shot whose state indexes its profile, and
    touches nothing but the running show. *)
Lemma update_show_ok (s : Shot.t) :
  0 ≤ Shot.state s < Z.of_nat (length (Shot.states (Shot.profile s))) →
  ∃ s' cs, Shot._update_show E s = Py.Ok (s', cs) ∧ Shot.only_show_changed s s'.
Proof.
  intros Hrange. unfold Shot._update_show.
  destruct (negb (Shot.enabled s) && negb (Shot.show_when_disabled (Shot.profile s))).
  { pose proof (stop_show_only s). destruct (Shot._stop_show s). by eexists _, _. }
  destruct (index_in_range _ _ Hrange) as [settings ->]. simpl.
  pose proof (only_show_refl s) as Hrefl.
  repeat first
    [ apply restart_ok | apply play_show_ok
    | by eexists _, _
    | by (eexists _, _; split; [done|apply only_show_set])
    | match goal with
      | |- context [if ?b then _ else _] => destruct b
      | |- context [match Shot.running_show s with _ => _ end] =>
          destruct (Shot.running_show s)
      end ].
Qed.

End ShotFacts.

(** C8: [advance()] on a shot whose state indexes a profile of [k] states,
    all of whose shows are registered.  Disabled and not forced: nothing
    happens and [False] is returned.  Otherwise a state below [k - 1] moves
    on by one; the state [k - 1] wraps to 0 when the profile loops, and
    stays, with [False] returned, when it does not. *)
Theorem shot_advance (E : Shot.ShowEnv) (force : bool) (s : Shot.t) :
  (∀ show args, is_Some (Shot.play E show args)) →
  0 ≤ Shot.state s < Z.of_nat (length (Shot.states (Shot.profile s))) →
  let k := Z.of_nat (length (Shot.states (Shot.profile s))) in
  ∃ advancing s' cs,
    Shot.advance E force s = Py.Ok (advancing, s', cs)
    ∧ (Shot.enabled s = false → force = false →
       advancing = false ∧ s' = s ∧ cs = [])
    ∧ (Shot.enabled s = true ∨ force = true →
       (Shot.state s < k - 1 →
        advancing = true ∧ Shot.state s' = Shot.state s + 1)
       ∧ (Shot.state s = k - 1 → Shot.loop (Shot.profile s) = true →
          advancing = true ∧ Shot.state s' = 0)
       ∧ (Shot.state s = k - 1 → Shot.loop (Shot.profile s) = false →
          advancing = false ∧ s' = s ∧ cs = [])).
Proof.
  intros Hplay Hrange k. unfold Shot.advance. fold k.
  destruct (negb (Shot.enabled s) && negb force) eqn:Hgate.
  { exists false, s, []. split; [done|]. split; [done|].
    apply andb_true_iff in Hgate as [He Hf].
    apply negb_true_iff in He, Hf. intros [?|?]; congruence. }
  assert (Shot.enabled s = true ∨ force = true) as Hactive.
  { apply andb_false_iff in Hgate as [H|H]; apply negb_false_iff in H; auto. }
  assert (¬ (Shot.enabled s = false ∧ force = false)) as Hnot
    by (intros [? ?]; destruct Hactive; congruence).
  destruct (k <=? Shot.state s + 1) eqn:Hend.
  - apply Z.leb_le in Hend. destruct (Shot.loop (Shot.profile s)) eqn:Hloop.
    + destruct (update_show_ok E Hplay (Shot.set_state 0 s)) as (s' & cs & -> & Hs');
        [simpl; fold k; lia|].
      exists true, s', cs. simpl. split; [done|]. split; [by intros He Hf; destruct Hnot|].
      intros _. split_and!; [lia| |done].
      intros _ _. split; [done|]. by rewrite Hs'.
    + exists false, s, []. split; [done|]. split; [by intros He Hf; destruct Hnot|].
      intros _. split_and!; [lia|done|done].
  - apply Z.leb_gt in Hend.
    destruct (update_show_ok E Hplay (Shot.set_state (Shot.state s + 1) s))
      as (s' & cs & -> & Hs'); [simpl; fold k; lia|].
    exists true, s', cs. simpl. split; [done|]. split; [by intros He Hf; destruct Hnot|].
    intros _. split_and!; [|lia|lia].
    intros _. split; [done|]. by rewrite Hs'.
Qed.

Lemma shot_env_plays : ∀ show args, is_Some (Shot.play shot_env show args).
Proof. intros show args. by eexists. Qed.

(** C8 on a looping profile of three states, from the last state. *)
Lemma shot_advance_witness :
  ∃ advancing s' cs,
    Shot.advance shot_env false (shot_at (shot_profile "default" true) 2)
    = Py.Ok (advancing, s', cs)
    ∧ advancing = true ∧ Shot.state s' = 0.
Proof.
  destruct (shot_advance shot_env false (shot_at (shot_profile "default" true) 2)
              shot_env_plays) as (advancing & s' & cs & Hadv & _ & Hon).
  - simpl. lia.
  - exists advancing, s', cs. split; [exact Hadv|].
    apply Hon; [by left|reflexivity|reflexivity].
Defined.

(** ** The names of the events of a hit *)

Lemma string_app_length (a b : string) :
  String.length (a +:+ b) = (String.length a + String.length b)%nat.
Proof. induction a as [|c a IH]; simpl; [done|]. by rewrite IH. Qed.

Lemma string_app_inj_r (a b t : string) : a +:+ t = b +:+ t → a = b.
Proof.
  revert b. induction a as [|c a IH]; intros b Heq.
  - destruct b as [|c' b]; [done|].
    apply (f_equal String.length) in Heq.
    rewrite !string_app_length in Heq. simpl in Heq. lia.
  - destruct b as [|c' b].
    + apply (f_equal String.length) in Heq.
      rewrite !string_app_length in Heq. simpl in Heq. lia.
    + simpl in Heq. injection Heq as -> Heq. f_equal. by apply IH.
Qed.

(** The four names are pairwise distinct exactly when the profile's name
    differs from the state's. *)
Lemma hit_names_NoDup (n p st : string) :
  NoDup [n +:+ "_hit"; n +:+ "_" +:+ p +:+ "_hit";
         n +:+ "_" +:+ p +:+ "_" +:+ st +:+ "_hit"; n +:+ "_" +:+ st +:+ "_hit"]
  ↔ p ≠ st.
Proof.
  split.
  - intros Hnd ->. apply NoDup_cons in Hnd as [_ Hnd].
    apply NoDup_cons in Hnd as [Hnotin _]. apply Hnotin. set_solver.
  - intros Hne.
    assert (∀ x y : string, n +:+ x = n +:+ y → x = y) as Hn
      by (intros x y; apply String.app_inj).
    assert (∀ x y : string, p +:+ x = p +:+ y → x = y) as Hp
      by (intros x y; apply String.app_inj).
    repeat (apply NoDup_cons; split); [| | | |apply NoDup_nil_2];
      rewrite ?not_elem_of_cons; split_and?; try apply not_elem_of_nil;
      intros Heq; apply Hn in Heq; simpl in Heq; injection Heq as Heq;
      try apply Hp in Heq; try (apply (string_app_inj_r p st "_hit") in Heq; congruence);
      apply (f_equal String.length) in Heq;
      repeat (progress (rewrite ?string_app_length in Heq; simpl in Heq)); lia.
Qed.

(** ** Hitting a shot *)

(** [_update_show] posts no event. *)
Lemma update_show_quiet (E : Shot.ShowEnv) (s s' : Shot.t) (cs : list Shot.call) :
  Shot._update_show E s = Py.Ok (s', cs) → Forall (λ c, Shot.is_post c = false) cs.
Proof.
  unfold Shot._update_show, Shot.restart, Shot._play_show, Shot._stop_show,
    Py.bind, Py.of_option.
  intros H. repeat (case_match; simplify_eq/=); repeat constructor.
Qed.

(** What [advance()] leaves of a shot, and that it posts no event. *)
Lemma advance_ok (E : Shot.ShowEnv) (force : bool) (s : Shot.t) :
  (∀ show args, is_Some (Shot.play E show args)) →
  0 ≤ Shot.state s < Z.of_nat (length (Shot.states (Shot.profile s))) →
  ∃ advancing s' cs,
    Shot.advance E force s = Py.Ok (advancing, s', cs)
    ∧ Shot.name s' = Shot.name s ∧ Shot.profile s' = Shot.profile s
    ∧ Shot.monitor_enabled s' = Shot.monitor_enabled s
    ∧ Shot.monitors s' = Shot.monitors s
    ∧ Forall (λ c, Shot.is_post c = false) cs.
Proof.
  intros Hplay Hrange. unfold Shot.advance.
  destruct (negb (Shot.enabled s) && negb force).
  { exists false, s, []. by repeat split. }
  destruct (_ <=? Shot.state s + 1) eqn:Hend.
  - apply Z.leb_le in Hend. destruct (Shot.loop (Shot.profile s)).
    + destruct (update_show_ok E Hplay (Shot.set_state 0 s)) as (s' & cs & Hup & Hs');
        [simpl; lia|].
      rewrite Hup. exists true, s', cs. simpl. rewrite Hs'.
      split_and!; try done. by eapply update_show_quiet.
    + exists false, s, []. by repeat split.
  - apply Z.leb_gt in Hend.
    destruct (update_show_ok E Hplay (Shot.set_state (Shot.state s + 1) s))
      as (s' & cs & Hup & Hs'); [simpl; lia|].
    rewrite Hup. exists true, s', cs. simpl. rewrite Hs'.
    split_and!; try done. by eapply update_show_quiet.
Qed.

Lemma no_posts (cs : list Shot.call) :
  Forall (λ c, Shot.is_post c = false) cs →
  filter (λ c, Shot.is_post c) cs = [] ∧ Shot.event_names cs = [].
Proof.
  induction 1 as [|c cs Hc _ [IH1 IH2]]; [done|]. split.
  - by rewrite filter_cons, decide_False by (rewrite Hc; simpl; tauto).
  - unfold Shot.event_names in *. destruct c; simpl in *; try discriminate; exact IH2.
Qed.

Lemma notify_monitors_quiet (p st : string) (s : Shot.t) :
  Forall (λ c, Shot.is_post c = false) (Shot._notify_monitors p st s).
Proof.
  unfold Shot._notify_monitors. destruct (Shot.monitor_enabled s); [|constructor].
  destruct (Shot.monitors s) as [cbs|]; [|constructor].
  induction cbs; simpl; by constructor.
Qed.

(** C7, as amended: a [hit()] on an enabled shot with no pending delay
    posts exactly four events, in this order: [<shot>_hit],
    [<shot>_<profile>_hit], [<shot>_<profile>_<state>_hit] and
    [<shot>_<state>_hit], each with the same profile, the name of the state
    the shot was in when hit, and the same [advancing] flag, whether or not
    the hit advanced the shot.  The four names are pairwise distinct exactly
    when the profile's name differs from the state's name. *)
Theorem shot_hit_posts_four (E : Shot.ShowEnv) (s : Shot.t) :
  (∀ show args, is_Some (Shot.play E show args)) →
  0 ≤ Shot.state s < Z.of_nat (length (Shot.states (Shot.profile s))) →
  Shot.enabled s = true →
  Shot.active_delays s = ∅ →
  ∃ settings advancing s' cs,
    Py.index (Shot.states (Shot.profile s)) (Shot.state s) = Some settings
    ∧ Shot.hit E s = Py.Ok (s', cs)
    ∧ filter (λ c, Shot.is_post c) cs
      = Shot.hit_events s (Shot.st_name settings) advancing
    ∧ (Shot.advance_on_hit (Shot.profile s) = false → advancing = false ∧ s' = s)
    ∧ (Shot.advance_on_hit (Shot.profile s) = true →
       ∃ cs', Shot.advance E false s = Py.Ok (advancing, s', cs'))
    ∧ (NoDup (Shot.event_names cs)
       ↔ Shot.profile_name (Shot.profile s) ≠ Shot.st_name settings).
Proof.
  intros Hplay Hrange Hen Hdelay.
  destruct (index_in_range _ _ Hrange) as [settings Hsettings].
  assert (∀ advancing s' calls,
            Shot.name s' = Shot.name s → Shot.profile s' = Shot.profile s →
            Forall (λ c, Shot.is_post c = false) calls →
            let cs := [Shot.mark_playfield_active] ++ calls
                      ++ Shot._notify_monitors (Shot.profile_name (Shot.profile s'))
                           (Shot.st_name settings) s'
                      ++ Shot.hit_events s' (Shot.st_name settings) advancing in
            filter (λ c, Shot.is_post c) cs
            = Shot.hit_events s (Shot.st_name settings) advancing
            ∧ (NoDup (Shot.event_names cs)
               ↔ Shot.profile_name (Shot.profile s) ≠ Shot.st_name settings)) as Hposts.
  { intros advancing s' calls Hname Hprof Hquiet cs. unfold cs.
    destruct (no_posts calls Hquiet) as [Hf1 He1].
    destruct (no_posts _ (notify_monitors_quiet
                (Shot.profile_name (Shot.profile s')) (Shot.st_name settings) s'))
      as [Hf2 He2].
    unfold Shot.event_names in *.
    rewrite !filter_app, !omap_app, Hf1, Hf2, He1, He2.
    unfold Shot.hit_events. rewrite Hname, Hprof. simpl.
    split; [done|]. apply hit_names_NoDup. }
  unfold Shot.hit. rewrite Hen, Hdelay. simpl.
  rewrite bool_decide_eq_false_2 by (by intros H; apply H).
  rewrite Hsettings. simpl.
  destruct (Shot.advance_on_hit (Shot.profile s)) eqn:Hadv.
  - destruct (advance_ok E false s Hplay Hrange)
      as (advancing & s' & calls & Heq & Hname & Hprof & _ & _ & Hquiet).
    rewrite Heq. simpl.
    destruct (Hposts advancing s' calls Hname Hprof Hquiet) as [Hfour Hnd].
    exists settings, advancing, s'. eexists.
    split_and!; [done|reflexivity|exact Hfour|done| |exact Hnd].
    intros _. by exists calls.
  - destruct (Hposts false s [] eq_refl eq_refl (Forall_nil_2 _)) as [Hfour Hnd].
    exists settings, false, s. eexists.
    split_and!; [done|reflexivity|exact Hfour|done|done|exact Hnd].
Qed.

(** The amended C7 on the profile [default], hit in its state [unlit]. *)
Lemma shot_hit_posts_four_witness :
  ∃ settings advancing s' cs,
    Shot.hit shot_env (shot_at (shot_profile "default" true) 0) = Py.Ok (s', cs)
    ∧ filter (λ c, Shot.is_post c) cs
      = Shot.hit_events (shot_at (shot_profile "default" true) 0)
          (Shot.st_name settings) advancing
    ∧ NoDup (Shot.event_names cs).
Proof.
  destruct (shot_hit_posts_four shot_env (shot_at (shot_profile "default" true) 0)
              shot_env_plays)
    as (settings & advancing & s' & cs & Hidx & Hhit & Hfour & _ & _ & Hnd);
    [simpl; lia|reflexivity|reflexivity|].
  exists settings, advancing, s', cs. split_and!; [exact Hhit|exact Hfour|].
  apply Hnd. vm_compute in Hidx. injection Hidx as <-. simpl. discriminate.
Defined.

(** C7 as stated fails: on the profile [lit], a hit in its state [lit] posts
    [ramp_lit_hit] twice, so only three distinct names are posted. *)
Lemma shot_hit_repeats_a_name :
  ∃ s' cs,
    Shot.hit shot_env (shot_at (shot_profile "lit" true) 1) = Py.Ok (s', cs)
    ∧ Shot.event_names cs
      = ["ramp_hit"; "ramp_lit_hit"; "ramp_lit_lit_hit"; "ramp_lit_hit"]
    ∧ length (remove_dups (Shot.event_names cs)) = 3%nat.
Proof. eexists _, _. split; [reflexivity|]. split; vm_compute; reflexivity. Qed.

(** ** Playlists *)

Section PlaylistFacts.
Context (E : Playlist.ShowEnv).

(** A running playlist whose [_advance] raises nothing becomes
    [after_advance]. *)
Lemma advance_pl (st st' : Playlist.St) :
  Playlist.running (Playlist.pl st) = true →
  Playlist._advance E st = Py.Ok st' →
  Playlist.pl st' = Playlist.after_advance (Playlist.pl st).
Proof.
  intros Hrun. unfold Playlist._advance, Playlist.after_advance,
    Playlist.schedule, Py.bind, Py.of_option.
  rewrite Hrun. simpl. intros H.
  repeat (case_match; simplify_eq/=); done.
Qed.

(** A playlist that is not running ignores [_advance]. *)
Lemma advance_not_running (st : Playlist.St) :
  Playlist.running (Playlist.pl st) = false → Playlist._advance E st = Py.Ok st.
Proof. intros Hrun. unfold Playlist._advance. by rewrite Hrun. Qed.

End PlaylistFacts.

Lemma succ_div_mod (len k : Z) :
  0 < len → 0 ≤ k →
  (k mod len = len - 1 → (k + 1) mod len = 0 ∧ (k + 1) / len = k / len + 1)
  ∧ (k mod len ≠ len - 1 → (k + 1) mod len = k mod len + 1 ∧ (k + 1) / len = k / len).
Proof.
  intros Hlen Hk.
  pose proof (Z.div_mod k len ltac:(lia)) as Hdm.
  pose proof (Z.mod_pos_bound k len Hlen) as Hb.
  split; intros Hr.
  - assert ((k + 1) = len * (k / len + 1) + 0) as Heq by lia.
    split.
    + symmetry. apply (Z.mod_unique_pos _ _ (k / len + 1)); [lia|exact Heq].
    + symmetry. apply (Z.div_unique_pos _ _ _ 0); [lia|exact Heq].
  - assert ((k + 1) = len * (k / len) + (k mod len + 1)) as Heq by lia.
    split.
    + symmetry. apply (Z.mod_unique_pos _ _ (k / len)); [lia|exact Heq].
    + symmetry. apply (Z.div_unique_pos _ _ _ (k mod len + 1)); [lia|exact Heq].
Qed.

(** What one [_advance] does to the position of a playlist that is not
    marked [stopping]. *)
Lemma after_advance_frame (p : Playlist.t) :
  Playlist.steps (Playlist.after_advance p) = Playlist.steps p
  ∧ Playlist.repeat (Playlist.after_advance p) = Playlist.repeat p
  ∧ Playlist.repeat_count (Playlist.after_advance p) = Playlist.repeat_count p
  ∧ Playlist.running (Playlist.after_advance p) = Playlist.running p.
Proof.
  unfold Playlist.after_advance, Playlist.advance_position. simpl.
  repeat case_match; done.
Qed.

Lemma iter_after_advance_frame (k : nat) (p : Playlist.t) :
  Playlist.steps (Nat.iter k Playlist.after_advance p) = Playlist.steps p
  ∧ Playlist.repeat (Nat.iter k Playlist.after_advance p) = Playlist.repeat p
  ∧ Playlist.repeat_count (Nat.iter k Playlist.after_advance p) = Playlist.repeat_count p
  ∧ Playlist.running (Nat.iter k Playlist.after_advance p) = Playlist.running p.
Proof.
  induction k as [|k (I1 & I2 & I3 & I4)]; [done|]. simpl.
  destruct (after_advance_frame (Nat.iter k Playlist.after_advance p))
    as (-> & -> & -> & ->). done.
Qed.

Lemma after_advance_stopping (p : Playlist.t) :
  Playlist.stopping p = true →
  Playlist.stopping (Playlist.after_advance p) = true
  ∧ Playlist.current_step_position (Playlist.after_advance p)
    = Playlist.current_step_position p.
Proof. intros H. unfold Playlist.after_advance. simpl. by rewrite H. Qed.

(** The playlist after [k] calls of [_advance] that raise nothing. *)
Lemma advance_times_pl (E : Playlist.ShowEnv) (k : nat) (st st' : Playlist.St) :
  Playlist.running (Playlist.pl st) = true →
  Playlist.advance_times E k st = Py.Ok st' →
  Playlist.pl st' = Nat.iter k Playlist.after_advance (Playlist.pl st).
Proof.
  revert st. induction k as [|k IH]; intros st Hrun Hk; simpl in Hk.
  - by injection Hk as <-.
  - destruct (Playlist._advance E st) as [st1|] eqn:H1; [|done]. simpl in Hk.
    pose proof (advance_pl E st st1 Hrun H1) as Hpl.
    rewrite (IH st1); [|by rewrite Hpl; destruct (after_advance_frame (Playlist.pl st))
                                 as (_ & _ & _ & ->)|done].
    rewrite Hpl. by rewrite Nat.iter_succ_r.
Qed.

(** One [_advance] on a playlist that is not marked [stopping]: the
    position moves on by one, or wraps to 0 with the repeat policy applied. *)
Lemma after_advance_step (p : Playlist.t) :
  Playlist.stopping p = false →
  let len := Z.of_nat (length (Playlist.steps p)) in
  let p' := Playlist.after_advance p in
  (Playlist.current_step_position p ≠ len - 1 →
   Playlist.stopping p' = false
   ∧ Playlist.current_step_position p' = Playlist.current_step_position p + 1
   ∧ Playlist.current_repeat_loop p' = Playlist.current_repeat_loop p)
  ∧ (Playlist.current_step_position p = len - 1 →
     Playlist.current_step_position p' = 0
     ∧ (Playlist.repeat p = false → Playlist.stopping p' = true)
     ∧ (Playlist.repeat p = true → Playlist.repeat_count p = 0 →
        Playlist.stopping p' = false
        ∧ Playlist.current_repeat_loop p' = Playlist.current_repeat_loop p)
     ∧ (Playlist.repeat p = true → Playlist.repeat_count p ≠ 0 →
        Playlist.current_repeat_loop p < Playlist.repeat_count p - 1 →
        Playlist.stopping p' = false
        ∧ Playlist.current_repeat_loop p' = Playlist.current_repeat_loop p + 1)
     ∧ (Playlist.repeat p = true → Playlist.repeat_count p ≠ 0 →
        ¬ Playlist.current_repeat_loop p < Playlist.repeat_count p - 1 →
        Playlist.stopping p' = true)).
Proof.
  intros Hstop. cbv zeta.
  unfold Playlist.after_advance, Playlist.advance_position. simpl. rewrite Hstop.
  split.
  - intros Hpos. by rewrite bool_decide_eq_false_2.
  - intros Hpos. rewrite bool_decide_eq_true_2 by done. simpl.
    split_and!.
    + by repeat case_match.
    + by intros ->.
    + intros -> ->. by rewrite bool_decide_eq_false_2 by (by intros H; apply H).
    + intros -> Hc Hlt. by rewrite !bool_decide_eq_true_2.
    + intros -> Hc Hlt. by rewrite bool_decide_eq_true_2, bool_decide_eq_false_2.
Qed.

(** The position, repeat counter and [stopping] mark of a playlist after
    [k] calls of [_advance], from its first step. *)
Lemma iter_after_advance_policy (p0 : Playlist.t) (k : nat) :
  Playlist.stopping p0 = false →
  Playlist.current_step_position p0 = 0 →
  Playlist.current_repeat_loop p0 = 0 →
  Playlist.steps p0 ≠ [] →
  let len := Z.of_nat (length (Playlist.steps p0)) in
  let p := Nat.iter k Playlist.after_advance p0 in
  match Playlist.stops_after p0 with
  | Some m =>
      if bool_decide (m ≤ Z.of_nat k)
      then Playlist.stopping p = true ∧ Playlist.current_step_position p = 0
      else Playlist.stopping p = false
           ∧ Playlist.current_step_position p = Z.of_nat k mod len
           ∧ Playlist.current_repeat_loop p
             = (if Playlist.repeat p0 then Z.of_nat k / len else 0)
  | None =>
      Playlist.stopping p = false
      ∧ Playlist.current_step_position p = Z.of_nat k mod len
      ∧ Playlist.current_repeat_loop p = 0
  end.
Proof.
  intros Hstop Hpos Hloop Hsteps. cbv zeta.
  assert (0 < Z.of_nat (length (Playlist.steps p0))) as Hlen
    by (destruct (Playlist.steps p0); [done|simpl; lia]).
  set (len := Z.of_nat (length (Playlist.steps p0))) in *.
  induction k as [|k IH].
  - simpl. rewrite Z.mod_0_l, Z.div_0_l by lia. unfold Playlist.stops_after. fold len.
    repeat case_match; simplify_eq; try case_bool_decide; try done;
      exfalso; nia.
  - rewrite Nat.iter_succ. set (p := Nat.iter k Playlist.after_advance p0) in *.
    destruct (iter_after_advance_frame k p0) as (Fs & Fr & Fc & _). fold p in Fs, Fr, Fc.
    pose proof (after_advance_step p) as Hstep. cbv zeta in Hstep.
    rewrite Fs, Fr, Fc in Hstep. fold len in Hstep.
    pose proof (after_advance_stopping p) as Hstay.
    destruct (succ_div_mod len (Z.of_nat k) Hlen ltac:(lia)) as [Hwrap Hnext].
    pose proof (Z.mod_pos_bound (Z.of_nat k) len Hlen) as Hbound.
    pose proof (Z.div_mod (Z.of_nat k) len ltac:(lia)) as Hdm.
    assert (0 ≤ Z.of_nat k / len) as Hq by (apply Z.div_pos; lia).
    replace (Z.of_nat (S k)) with (Z.of_nat k + 1) by lia.
    unfold Playlist.stops_after in *. fold len in IH |- *.
    destruct (Playlist.repeat p0) eqn:Hrep.
    + destruct (bool_decide (Playlist.repeat_count p0 ≠ 0)) eqn:Hcount.
      * apply bool_decide_eq_true in Hcount.
        set (m := Z.max 1 (Playlist.repeat_count p0) * len) in *.
        destruct (bool_decide (m ≤ Z.of_nat k)) eqn:Hk.
        { apply bool_decide_eq_true in Hk. destruct IH as [IHs IHp].
          destruct (Hstay IHs) as [-> ->].
          rewrite bool_decide_eq_true_2 by lia. done. }
        apply bool_decide_eq_false in Hk. destruct IH as (IHs & IHp & IHl).
        destruct (Hstep IHs) as [Hmove Hend].
        destruct (decide (Z.of_nat k mod len = len - 1)) as [Hr|Hr].
        -- destruct (Hwrap Hr) as [Hm Hd].
           destruct (Hend ltac:(lia)) as (Hp0 & _ & _ & Hinc & Hfin).
           destruct (decide (Playlist.current_repeat_loop p < Playlist.repeat_count p0 - 1))
             as [Hlt|Hge].
           ++ destruct (Hinc eq_refl Hcount Hlt) as [-> ->].
              rewrite bool_decide_eq_false_2 by (unfold m; nia).
              rewrite Hp0, Hm, Hd, IHl. done.
           ++ rewrite (Hfin eq_refl Hcount Hge), Hp0.
              rewrite bool_decide_eq_true_2 by (unfold m; nia). done.
        -- destruct (Hnext Hr) as [Hm Hd].
           destruct (Hmove ltac:(lia)) as (-> & -> & ->).
           assert (¬ m ≤ Z.of_nat k + 1) as Hk'.
           { unfold m in *. set (c := Z.max 1 (Playlist.repeat_count p0)) in *.
             assert (Z.of_nat k / len < c) by nia. nia. }
           rewrite bool_decide_eq_false_2 by exact Hk'.
           rewrite Hm, Hd, IHp, IHl. done.
      * apply bool_decide_eq_false in Hcount.
        assert (Playlist.repeat_count p0 = 0) as Hzero by lia.
        destruct IH as (IHs & IHp & IHl). destruct (Hstep IHs) as [Hmove Hend].
        destruct (decide (Z.of_nat k mod len = len - 1)) as [Hr|Hr].
        -- destruct (Hwrap Hr) as [Hm Hd].
           destruct (Hend ltac:(lia)) as (Hp0 & _ & Hkeep & _ & _).
           destruct (Hkeep eq_refl Hzero) as [-> ->]. rewrite Hp0, Hm. done.
        -- destruct (Hnext Hr) as [Hm Hd].
           destruct (Hmove ltac:(lia)) as (-> & -> & ->). rewrite Hm, IHp. done.
    + destruct (bool_decide (len ≤ Z.of_nat k)) eqn:Hk.
      { apply bool_decide_eq_true in Hk. destruct IH as [IHs IHp].
        destruct (Hstay IHs) as [-> ->].
        rewrite bool_decide_eq_true_2 by lia. done. }
      apply bool_decide_eq_false in Hk. destruct IH as (IHs & IHp & IHl).
      destruct (Hstep IHs) as [Hmove Hend].
      destruct (decide (Z.of_nat k mod len = len - 1)) as [Hr|Hr].
      * destruct (Hwrap Hr) as [Hm Hd].
        destruct (Hend ltac:(lia)) as (Hp0 & Hfin & _).
        rewrite (Hfin eq_refl), Hp0.
        rewrite bool_decide_eq_true_2; [done|].
        rewrite Z.mod_small in Hr by lia. lia.
      * destruct (Hnext Hr) as [Hm Hd].
        destruct (Hmove ltac:(lia)) as (-> & -> & ->).
        rewrite Z.mod_small in Hr by lia.
        rewrite bool_decide_eq_false_2 by lia. rewrite Hm, IHp, IHl. done.
Qed.

Lemma index_in_py_range {A : Type} (l : list A) (i : Z) :
  - Z.of_nat (length l) ≤ i < Z.of_nat (length l) → is_Some (Py.index l i).
Proof.
  intros [Hlo Hhi]. unfold Py.index. destruct (0 <=? i) eqn:Hi.
  - apply Z.leb_le in Hi. apply lookup_lt_is_Some. lia.
  - apply Z.leb_gt in Hi.
    destruct (0 <=? Z.of_nat (length l) + i) eqn:Hn; [|apply Z.leb_gt in Hn; lia].
    apply lookup_lt_is_Some. lia.
Qed.

Lemma index_elem_of {A : Type} (l : list A) (i : Z) (x : A) :
  Py.index l i = Some x → x ∈ l.
Proof.
  unfold Py.index. intros H. repeat case_match; try done;
    by eapply list_elem_of_lookup_2.
Qed.

(** [_advance] on a running playlist whose steps are configured and whose
    position indexes its steps raises nothing. *)
Lemma advance_total (E : Playlist.ShowEnv) (st : Playlist.St) :
  Playlist.running (Playlist.pl st) = true →
  Playlist.steps_configured (Playlist.pl st) →
  0 ≤ Playlist.current_step_position (Playlist.pl st)
    < Z.of_nat (length (Playlist.steps (Playlist.pl st))) →
  ∃ st', Playlist._advance E st = Py.Ok st'.
Proof.
  intros Hrun Hconf Hrange. unfold Playlist._advance. rewrite Hrun. cbn [negb].
  destruct (index_in_py_range (Playlist.steps (Playlist.pl st))
              (Playlist.current_step_position (Playlist.pl st)) ltac:(lia))
    as [current Hcur].
  destruct (index_in_py_range (Playlist.steps (Playlist.pl st))
              (Playlist.current_step_position (Playlist.pl st) - 1) ltac:(lia))
    as [prev Hprev].
  rewrite Hcur, Hprev. cbn [Py.of_option Py.bind].
  change (Playlist.stopping (Playlist.set_starting false (Playlist.pl st)))
    with (Playlist.stopping (Playlist.pl st)).
  destruct (Playlist.stopping (Playlist.pl st)); [by eexists|].
  destruct (Hconf current (index_elem_of _ _ _ Hcur)) as (settings & Hset & Htime).
  change (Playlist.step_settings_dic (Playlist.set_starting false (Playlist.pl st)))
    with (Playlist.step_settings_dic (Playlist.pl st)).
  rewrite Hset. cbn [Py.of_option Py.bind].
  assert (∀ p w, Playlist.schedule p settings w = Py.Ok w) as Hsched.
  { intros p w. unfold Playlist.schedule. destruct Htime as [-> | Htrig].
    - by rewrite bool_decide_eq_false_2 by (by intros H; apply H).
    - by rewrite (bool_decide_eq_true_2 _ Htrig), andb_false_r. }
  rewrite Hsched. cbn [Py.bind]. by eexists.
Qed.

Lemma after_advance_keeps (p : Playlist.t) :
  (Playlist.steps_configured p → Playlist.steps_configured (Playlist.after_advance p))
  ∧ (0 ≤ Playlist.current_step_position p < Z.of_nat (length (Playlist.steps p)) →
     0 ≤ Playlist.current_step_position (Playlist.after_advance p)
       < Z.of_nat (length (Playlist.steps (Playlist.after_advance p)))).
Proof.
  assert (Playlist.step_settings_dic (Playlist.after_advance p)
          = Playlist.step_settings_dic p) as Hdic
    by (unfold Playlist.after_advance, Playlist.advance_position; simpl;
        repeat case_match; done).
  destruct (after_advance_frame p) as (Hsteps & _).
  split.
  - unfold Playlist.steps_configured. rewrite Hdic, Hsteps. done.
  - rewrite Hsteps. unfold Playlist.after_advance, Playlist.advance_position. simpl.
    intros Hrange. repeat case_match; simpl; try lia; case_bool_decide; lia.
Qed.

(** Any number of [_advance] calls in a row on such a playlist raise
    nothing. *)
Lemma advance_times_total (E : Playlist.ShowEnv) (k : nat) (st : Playlist.St) :
  Playlist.running (Playlist.pl st) = true →
  Playlist.steps_configured (Playlist.pl st) →
  0 ≤ Playlist.current_step_position (Playlist.pl st)
    < Z.of_nat (length (Playlist.steps (Playlist.pl st))) →
  ∃ st', Playlist.advance_times E k st = Py.Ok st'.
Proof.
  revert st. induction k as [|k IH]; intros st Hrun Hconf Hrange; simpl.
  - by eexists.
  - destruct (advance_total E st Hrun Hconf Hrange) as [st1 H1]. rewrite H1. simpl.
    pose proof (advance_pl E st st1 Hrun H1) as Hpl.
    destruct (after_advance_frame (Playlist.pl st)) as (_ & _ & _ & Hr).
    destruct (after_advance_keeps (Playlist.pl st)) as [Hc Hp].
    apply IH; rewrite Hpl; [by rewrite Hr|by apply Hc|by apply Hp].
Qed.

(** C6: a playlist with at least one step is started from its first step
    ([start] with [reset]) and [_advance] is called [k] times in all.  When
    every step has its settings and none is timed without a trigger show, the
    [k] calls raise nothing.  After [k] calls that raised nothing the
    position is [k mod len] as long as the playlist is not marked
    [stopping], so it wraps to 0 past the last step.  With [repeat] and
    [repeat_count = 0] it is never marked [stopping]; with [repeat] and
    [repeat_count = n > 0] it is marked exactly from the [n * len]-th call
    on; without [repeat] exactly from the [len]-th call on, the first
    wrap. *)
Theorem playlist_repeat_policy (E : Playlist.ShowEnv) (new_priority : Z)
    (new_repeat : bool) (n : Z) (k : nat) (st : Playlist.St) :
  Playlist.steps (Playlist.pl st) ≠ [] →
  let st0 := Playlist.starting_state new_priority new_repeat n true st in
  let len := Z.of_nat (length (Playlist.steps (Playlist.pl st))) in
  (Playlist.steps_configured (Playlist.pl st) →
   ∃ st', Playlist.advance_times E k st0 = Py.Ok st')
  ∧ ∀ st', Playlist.advance_times E k st0 = Py.Ok st' →
      let p' := Playlist.pl st' in
      (new_repeat = true → n = 0 →
       Playlist.stopping p' = false
       ∧ Playlist.current_step_position p' = Z.of_nat k mod len)
      ∧ (new_repeat = true → 0 < n →
         (Playlist.stopping p' = true ↔ n * len ≤ Z.of_nat k)
         ∧ (Z.of_nat k < n * len →
            Playlist.current_step_position p' = Z.of_nat k mod len)
         ∧ (n * len ≤ Z.of_nat k → Playlist.current_step_position p' = 0))
      ∧ (new_repeat = false →
         (Playlist.stopping p' = true ↔ len ≤ Z.of_nat k)
         ∧ (Z.of_nat k < len → Playlist.current_step_position p' = Z.of_nat k)
         ∧ (len ≤ Z.of_nat k → Playlist.current_step_position p' = 0)).
Proof.
  intros Hsteps. cbv zeta.
  set (st0 := Playlist.starting_state new_priority new_repeat n true st) in *.
  assert (0 < Z.of_nat (length (Playlist.steps (Playlist.pl st)))) as Hlen
    by (destruct (Playlist.steps (Playlist.pl st)); [done|simpl; lia]).
  split.
  { intros Hconf. apply advance_times_total; [done|exact Hconf|simpl; lia]. }
  intros st' Hk.
  rewrite (advance_times_pl E k st0 st' eq_refl Hk).
  pose proof (iter_after_advance_policy (Playlist.pl st0) k eq_refl eq_refl eq_refl Hsteps)
    as Hpol.
  cbv zeta in Hpol. unfold Playlist.stops_after in Hpol.
  change (Playlist.steps (Playlist.pl st0)) with (Playlist.steps (Playlist.pl st)) in Hpol.
  change (Playlist.repeat (Playlist.pl st0)) with new_repeat in Hpol.
  change (Playlist.repeat_count (Playlist.pl st0)) with n in Hpol.
  set (len := Z.of_nat (length (Playlist.steps (Playlist.pl st)))) in *.
  set (p' := Nat.iter k Playlist.after_advance (Playlist.pl st0)) in *. clearbody p'.
  split_and!.
  - intros -> ->. rewrite bool_decide_eq_false_2 in Hpol by (by intros H; apply H).
    by destruct Hpol as (? & ? & _).
  - intros -> Hn. rewrite bool_decide_eq_true_2 in Hpol by lia.
    replace (Z.max 1 n) with n in Hpol by lia.
    case_bool_decide as Hm.
    + destruct Hpol as [Hs Hp]. split_and!; [done|lia|done].
    + destruct Hpol as (Hs & Hp & _). split_and!; [|done|lia].
      rewrite Hs. split; [done|lia].
  - intros ->. case_bool_decide as Hm.
    + destruct Hpol as [Hs Hp]. split_and!; [done|lia|done].
    + destruct Hpol as (Hs & Hp & _). split_and!; [| |lia].
      * rewrite Hs. split; [done|lia].
      * intros _. rewrite Hp. apply Z.mod_small. lia.
Qed.

(** The three steps of [playlist_123] have their settings; untimed, they
    never read the clock. *)
Lemma playlist_123_configured : Playlist.steps_configured (playlist_123 0).
Proof.
  intros s Hs.
  assert (Playlist.steps (playlist_123 0) = [1; 2; 3]) as Hsteps
    by (vm_compute; reflexivity).
  rewrite Hsteps in Hs.
  repeat (apply elem_of_cons in Hs as [-> | Hs]);
    [| | |by apply elem_of_nil in Hs];
    (eexists; split; [vm_compute; reflexivity|by left]).
Qed.

(** C6 on the three untimed steps of [playlist_123], started with
    [repeat=True, repeat_count=2]: six calls of [_advance] raise nothing and
    the sixth marks it [stopping]. *)
Lemma playlist_repeat_policy_witness :
  ∃ st',
    Playlist.advance_times playlist_env 6
      (Playlist.starting_state 0 true 2 true
         (playlist_state (playlist_123 0) World_init)) = Py.Ok st'
    ∧ Playlist.stopping (Playlist.pl st') = true.
Proof.
  destruct (playlist_repeat_policy playlist_env 0 true 2 6
              (playlist_state (playlist_123 0) World_init))
    as [Htotal Hpolicy]; [discriminate|].
  destruct (Htotal playlist_123_configured) as [st' Hk].
  exists st'. split; [exact Hk|].
  destruct (Hpolicy st' Hk) as (_ & Hcounted & _).
  apply Hcounted; [reflexivity|lia|]. vm_compute. discriminate.
Defined.

(** ** The queue of deferred playlist actions *)

Lemma serve_keeps_queue (r : request) (c : ShowController) :
  queue (serve r c) = queue c ∧ current_time (serve r c) = current_time c
  ∧ running_shows (serve r c) = running_shows c
  ∧ registered_tick_handlers (serve r c) = registered_tick_handlers c.
Proof. by destruct r. Qed.

Lemma foldl_serve_keeps_queue (rs : list request) (c : ShowController) :
  queue (foldl (λ c r, serve r c) c rs) = queue c
  ∧ current_time (foldl (λ c r, serve r c) c rs) = current_time c.
Proof.
  revert c. induction rs as [|r rs IH]; intros c; simpl; [done|].
  destruct (IH (serve r c)) as [-> ->]. by destruct (serve_keeps_queue r c) as (-> & -> & _).
Qed.

Lemma tick_before_update_keeps_queue (E : Env) (now : float) (w : World) :
  queue (sc (tick_before_update E now w)) = queue (sc w)
  ∧ current_time (sc (tick_before_update E now w)) = current_time (sc w).
Proof.
  unfold tick_before_update.
  assert (∀ (l : list show_id) w0,
            queue (sc (foldl (tick_show E now) w0 l)) = queue (sc w0)
            ∧ current_time (sc (foldl (tick_show E now) w0 l)) = current_time (sc w0))
    as Hshows.
  { induction l as [|x l IH]; intros w0; simpl; [done|].
    destruct (IH (tick_show E now w0 x)) as [-> ->]. unfold tick_show. simpl.
    apply foldl_serve_keeps_queue. }
  assert (∀ (l : list handler_id) w0,
            queue (sc (foldl (run_handler E) w0 l)) = queue (sc w0)
            ∧ current_time (sc (foldl (run_handler E) w0 l)) = current_time (sc w0))
    as Hhandlers.
  { induction l as [|x l IH]; intros w0; simpl; [done|].
    destruct (IH (run_handler E w0 x)) as [-> ->]. unfold run_handler. simpl.
    apply foldl_serve_keeps_queue. }
  cbv zeta. destruct (Hhandlers
    (registered_tick_handlers
       (sc (foldl (tick_show E now) (with_sc (set_current_tick_time now) w)
              (running_shows (sc (with_sc (set_current_tick_time now) w))))))
    (foldl (tick_show E now) (with_sc (set_current_tick_time now) w)
       (running_shows (sc (with_sc (set_current_tick_time now) w))))) as [-> ->].
  by destruct (Hshows (running_shows (sc (with_sc (set_current_tick_time now) w)))
                 (with_sc (set_current_tick_time now) w)) as [-> ->].
Qed.

(** C4 fails on the code.  [start(repeat=False)] on the playlist of three
    steps of 5 seconds each raises [AttributeError] on a controller as
    [__init__] leaves it, at the read of [show_controller.current_time];
    with that attribute present the first [_advance] appends one item due
    at [now + 5] and leaves the playlist at position 1, not [stopping]; and
    no [_tick] ever reads or changes the [queue], so nothing calls
    [_advance] again. *)
Theorem timed_playlist_is_never_advanced :
  Playlist.start playlist_env 0 false 0 true
    (playlist_state (playlist_123 5) World_init) = Py.Raise Py.AttributeError
  ∧ (∃ st',
       Playlist.start playlist_env 0 false 0 true
         (playlist_state (playlist_123 5) (World_clock 100)) = Py.Ok st'
       ∧ queue (sc (Playlist.world st'))
         = [{| qi_playlist := 0%nat; qi_action_time := 105%float |}]
       ∧ Playlist.current_step_position (Playlist.pl st') = 1
       ∧ Playlist.stopping (Playlist.pl st') = false)
  ∧ (∀ E now w, queue (sc (_tick E now w)) = queue (sc w)).
Proof.
  split_and!.
  - vm_compute. reflexivity.
  - eexists. split; [vm_compute; reflexivity|]. split_and!; vm_compute; reflexivity.
  - intros E now w. rewrite tick_as_do_update.
    destruct (do_update_spec E (tick_before_update E now w)) as [-> _]. simpl.
    apply tick_before_update_keeps_queue.
Qed.

(** ** External show frames *)

(** C3 fails on the code.  For a running external show, a frame's [gi_data]
    is handed to [update_flashers], which pairs its characters with the
    show's flashers and asks for a flash for each, and a frame's
    [flasher_data] is handed to [update_gis], which pairs its two-character
    chunks with the show's lights and asks for a GI update on each light.
    On the show with light 1, GI 2 and flasher 3: [gi_data = "ff"] asks for
    a flash of flasher 3 and nothing of GI 2, and [flasher_data = "7f"] asks
    for GI updates on light 1 only. *)
Theorem external_frame_crosses_gi_and_flashers :
  (∀ K c name es d,
     running_external_show_keys c !! name = Some es →
     Py.str_truthy d = true →
     _process_external_show_frame_command K c name None None None (Some d) None None
     = update_flashers es d
     ∧ _process_external_show_frame_command K c name None None (Some d) None None None
       = update_gis K es d)
  ∧ (∀ K,
       _process_external_show_frame_command K
         (_process_external_show_start_command "show" external_show_example
            ShowController_init)
         "show" None None None (Some "ff") None None
       = [ext__add_to_flasher_queue 3%nat])
  ∧ (∀ K,
       _process_external_show_frame_command K
         (_process_external_show_start_command "show" external_show_example
            ShowController_init)
         "show" None None (Some "7f") None None None
       = map (λ x, ext__add_to_gi_queue x.1 (hex_string_to_int K x.2))
           (Py.zip [1%nat] (chunker K "7f" 2))).
Proof.
  split_and!.
  - intros K c name es d Hes Hd. unfold _process_external_show_frame_command.
    rewrite Hes. simpl. rewrite Hd. simpl. by rewrite !app_nil_r.
  - intros K. reflexivity.
  - intros K. unfold _process_external_show_frame_command.
    assert (running_external_show_keys
              (_process_external_show_start_command "show" external_show_example
                 ShowController_init) !! "show" = Some external_show_example) as ->
      by (vm_compute; reflexivity).
    simpl. by rewrite app_nil_r.
Qed.

(** ** Further properties: sorting *)

Lemma insert_by_sorted {A : Type} (key : A → Z) (x : A) (l : list A) :
  StronglySorted (λ a b, key a ≤ key b) l →
  StronglySorted (λ a b, key a ≤ key b) (insert_by key x l).
Proof.
  induction 1 as [|y t Hss IH Hall]; simpl; [by repeat constructor|].
  destruct (key x <=? key y) eqn:Hxy.
  - apply Z.leb_le in Hxy. constructor; [by constructor|].
    constructor; [done|]. eapply Forall_impl; [exact Hall|]. simpl. intros; lia.
  - apply Z.leb_gt in Hxy. constructor; [done|].
    rewrite insert_by_perm. constructor; [lia|done].
Qed.

Lemma sort_by_sorted {A : Type} (key : A → Z) (l : list A) :
  StronglySorted (λ a b, key a ≤ key b) (sort_by key l).
Proof.
  induction l as [|x t IH]; [constructor|]. by apply insert_by_sorted.
Qed.

Lemma sorted_NoDup_strict (l : list Z) :
  StronglySorted Z.le l → NoDup l → StronglySorted Z.lt l.
Proof.
  induction 1 as [|x t Hss IH Hall]; intros Hnd; [constructor|].
  apply NoDup_cons in Hnd as [Hx Hnd]. constructor; [by apply IH|].
  rewrite Forall_forall in Hall |- *. intros y Hy.
  assert (x ≠ y) by (by intros ->). specialize (Hall y Hy). lia.
Qed.

(** [_run_show] leaves the running shows in ascending order of priority. *)
Theorem run_show_sorts_by_priority (show : show_id) (w : World) :
  show ∉ running_shows (sc w) →
  StronglySorted
    (λ a b, Show.priority (shows (_run_show show w) a)
            ≤ Show.priority (shows (_run_show show w) b))
    (running_shows (sc (_run_show show w)))
  ∧ running_shows (sc (_run_show show w)) ≡ₚ running_shows (sc w) ++ [show].
Proof.
  intros Hout. split.
  - unfold _run_show. rewrite bool_decide_eq_false_2 by done.
    case_bool_decide; simpl; apply sort_by_sorted.
  - rewrite run_show_shows. by rewrite bool_decide_eq_false_2.
Qed.

Lemma run_show_sorts_by_priority_witness :
  running_shows (sc (_run_show 1%nat World_c5)) = [2%nat; 1%nat; 3%nat]
  ∧ StronglySorted
      (λ a b, Show.priority (shows (_run_show 4%nat World_c5) a)
              ≤ Show.priority (shows (_run_show 4%nat World_c5) b))
      (running_shows (sc (_run_show 4%nat World_c5))).
Proof.
  split; [reflexivity|].
  apply (run_show_sorts_by_priority 4%nat World_c5).
  simpl. rewrite !not_elem_of_cons. split_and!; try discriminate. apply not_elem_of_nil.
Defined.

(** ** Further properties: building a playlist *)

Lemma foldl_remove_matching {A : Type} `{EqDecision A} (m : A → bool)
    (done_ rest : list A) :
  foldl (λ l x, if m x then Py.remove x l else l)
    (filter (λ x, ¬ m x) done_ ++ rest) rest
  = filter (λ x, ¬ m x) (done_ ++ rest).
Proof.
  revert done_. induction rest as [|x rest IH]; intros done_; simpl.
  - by rewrite !app_nil_r.
  - replace (done_ ++ x :: rest) with ((done_ ++ [x]) ++ rest)
      by (by rewrite <- app_assoc).
    rewrite <- IH. f_equal. rewrite filter_app, filter_cons.
    destruct (m x) eqn:Hx.
    + rewrite decide_False by (simpl; tauto). rewrite filter_nil, app_nil_r.
      rewrite (remove_app_notin m x (filter (λ x0, ¬ m x0) done_) rest); [done|].
      rewrite list_elem_of_filter. intros [Hn _]. apply Hn. by rewrite Hx.
    + rewrite decide_True by (simpl; tauto). by rewrite filter_nil, <- app_assoc.
Qed.

(** [add_show] replaces what the step already had for the show and appends
    the new action; every other action stays, in order.  The step numbers
    come out ascending and without repetition, and are the old ones and the
    new one. *)
Theorem add_show_keeps_steps_sorted (step_num : Z) (show : show_id)
    (loops tocks_per_sec : Z) (blend repeat : bool) (p : Playlist.t) :
  let p' := Playlist.add_show step_num show loops tocks_per_sec blend repeat p in
  let same a := bool_decide (Playlist.sa_step_num a = step_num)
                && bool_decide (Playlist.sa_show a = show) in
  Playlist.step_actions p'
  = filter (λ a, ¬ same a) (Playlist.step_actions p)
    ++ [{| Playlist.sa_step_num := step_num; Playlist.sa_show := show;
           Playlist.sa_loops := loops; Playlist.sa_tocks_per_sec := tocks_per_sec;
           Playlist.sa_repeat := repeat; Playlist.sa_blend := blend |}]
  ∧ StronglySorted Z.lt (Playlist.steps p')
  ∧ (∀ v, v ∈ Playlist.steps p' ↔ v ∈ Playlist.steps p ∨ v = step_num).
Proof.
  cbv zeta. unfold Playlist.add_show. simpl. split_and!.
  - f_equal.
    apply (foldl_remove_matching
             (λ a, bool_decide (Playlist.sa_step_num a = step_num)
                   && bool_decide (Playlist.sa_show a = show)) []).
  - apply sorted_NoDup_strict.
    + apply (sort_by_sorted (λ x : Z, x)).
    + rewrite sort_by_perm. apply NoDup_remove_dups.
  - intros v. rewrite sort_by_perm, elem_of_remove_dups, elem_of_app,
      list_elem_of_singleton. done.
Qed.

(** ** Further properties: stopping a playlist *)

Lemma foldl_stop_action_raise (E : Playlist.ShowEnv) (p : Playlist.t)
    (hold : option bool) (e : Py.error) (l : list Playlist.StepAction) :
  foldl (Playlist.stop_action E p hold) (Py.Raise e) l = Py.Raise e.
Proof. induction l as [|a l IH]; simpl; [done|exact IH]. Qed.

(** The [stop] loop over the step's shows changes the controller only
    through [Show.stop]; the queue it leaves is the one those calls left. *)
Lemma stop_pl (E : Playlist.ShowEnv) (reset : bool) (hold : option bool)
    (st st' : Playlist.St) :
  Playlist.stop E reset hold st = Py.Ok st' →
  Playlist.pl st'
  = (if reset
     then Playlist.set_current_repeat_loop 0
            (Playlist.set_current_step_position 0
               (Playlist.set_running false (Playlist.pl st)))
     else Playlist.set_running false (Playlist.pl st)).
Proof.
  unfold Playlist.stop, Py.bind. intros H.
  destruct (foldl _ _ _); [|done]. by injection H as <-.
Qed.

(** A stopped playlist is not running, is back at its first step when
    [reset] is given, and ignores an [_advance] that arrives afterwards, as
    from a trigger show that ends or from a deferred action. *)
Theorem stop_then_advance_is_ignored (E : Playlist.ShowEnv) (reset : bool)
    (hold : option bool) (st st' : Playlist.St) :
  Playlist.stop E reset hold st = Py.Ok st' →
  Playlist.running (Playlist.pl st') = false
  ∧ (reset = true →
     Playlist.current_step_position (Playlist.pl st') = 0
     ∧ Playlist.current_repeat_loop (Playlist.pl st') = 0)
  ∧ Playlist.steps (Playlist.pl st') = Playlist.steps (Playlist.pl st)
  ∧ Playlist.step_actions (Playlist.pl st') = Playlist.step_actions (Playlist.pl st)
  ∧ Playlist._advance E st' = Py.Ok st'.
Proof.
  intros Hstop. pose proof (stop_pl E reset hold st st' Hstop) as Hpl.
  assert (Playlist.running (Playlist.pl st') = false) as Hrun
    by (rewrite Hpl; by destruct reset).
  split_and!; [done|by intros ->; rewrite Hpl|by rewrite Hpl; destruct reset..|].
  by apply advance_not_running.
Qed.

Lemma stop_then_advance_is_ignored_witness :
  ∃ st',
    Playlist.stop playlist_env true None
      (playlist_state (Playlist.set_running true (playlist_123 0)) World_init)
    = Py.Ok st'
    ∧ Playlist._advance playlist_env st' = Py.Ok st'.
Proof.
  destruct (Playlist.stop playlist_env true None
              (playlist_state (Playlist.set_running true (playlist_123 0)) World_init))
    as [st'|e] eqn:Hstop.
  - exists st'. split; [reflexivity|].
    apply (stop_then_advance_is_ignored playlist_env true None _ st' Hstop).
  - vm_compute in Hstop. discriminate.
Defined.

(** ** Further properties: jumping to a state *)

Lemma index_out_of_range {A : Type} (l : list A) (i : Z) :
  Z.of_nat (length l) ≤ i ∨ i < - Z.of_nat (length l) → Py.index l i = None.
Proof.
  intros Hout. unfold Py.index. destruct (0 <=? i) eqn:Hi.
  - apply Z.leb_le in Hi. apply lookup_ge_None. lia.
  - apply Z.leb_gt in Hi. destruct (0 <=? Z.of_nat (length l) + i) eqn:Hn; [|done].
    apply Z.leb_le in Hn. lia.
Qed.

(** [jump(state)] into the profile: a disabled shot is left alone unless the
    jump is forced, a jump to the current state does nothing, and any other
    jump sets the state and changes nothing else of the shot but the show it
    runs. *)
Theorem shot_jump_sets_state (E : Shot.ShowEnv) (target : Z) (force : bool) (s : Shot.t) :
  (∀ show args, is_Some (Shot.play E show args)) →
  0 ≤ target < Z.of_nat (length (Shot.states (Shot.profile s))) →
  ∃ s' cs,
    Shot.jump E target force s = Py.Ok (s', cs)
    ∧ Forall (λ c, Shot.is_post c = false) cs
    ∧ (Shot.enabled s = false ∧ force = false ∨ target = Shot.state s →
       s' = s ∧ cs = [])
    ∧ (Shot.enabled s = true ∨ force = true →
       Shot.state s' = target
       ∧ Shot.only_show_changed (Shot.set_state target s) s').
Proof.
  intros Hplay Hrange. unfold Shot.jump.
  destruct (negb (Shot.enabled s) && negb force) eqn:Hgate.
  { exists s, []. split_and!; [done|constructor|done|].
    apply andb_true_iff in Hgate as [He Hf]. apply negb_true_iff in He, Hf.
    intros [?|?]; congruence. }
  assert (Shot.enabled s = true ∨ force = true) as Hactive.
  { apply andb_false_iff in Hgate as [H|H]; apply negb_false_iff in H; auto. }
  case_bool_decide as Hsame.
  { exists s, []. split_and!; [done|constructor|done|].
    intros _. split; [done|]. subst target. by destruct s. }
  destruct (update_show_ok E Hplay (Shot.set_state target s)) as (s' & cs & Hup & Hs');
    [exact Hrange|].
  exists s', cs. split_and!; [done|by eapply update_show_quiet| |].
  - intros [[He Hf]|?]; [destruct Hactive; congruence|done].
  - intros _. split; [by rewrite Hs'|done].
Qed.

Lemma shot_jump_sets_state_witness :
  ∃ s' cs,
    Shot.jump shot_env 2 true (shot_at (shot_profile "default" false) 0) = Py.Ok (s', cs)
    ∧ Shot.state s' = 2.
Proof.
  destruct (shot_jump_sets_state shot_env 2 true (shot_at (shot_profile "default" false) 0)
              shot_env_plays) as (s' & cs & Hjump & _ & _ & Hon).
  - simpl. lia.
  - exists s', cs. split; [exact Hjump|]. apply Hon. by right.
Defined.

(** [jump] does not check its target against the profile.  On a shot that
    shows its state (enabled, or [show_when_disabled]) a target outside the
    profile raises [IndexError] from [_update_show]; on a disabled shot that
    hides its show a forced jump stores the target, whatever it is, and just
    stops the show. *)
Theorem shot_jump_target_is_unchecked (E : Shot.ShowEnv) (target : Z) (s : Shot.t) :
  target ≠ Shot.state s →
  Z.of_nat (length (Shot.states (Shot.profile s))) ≤ target
  ∨ target < - Z.of_nat (length (Shot.states (Shot.profile s))) →
  (Shot.enabled s = true ∨ Shot.show_when_disabled (Shot.profile s) = true →
   Shot.jump E target true s = Py.Raise Py.IndexError)
  ∧ (Shot.enabled s = false → Shot.show_when_disabled (Shot.profile s) = false →
     ∃ cs, Shot.jump E target true s
           = Py.Ok (Shot.set_running_show None (Shot.set_state target s), cs)
           ∧ (cs = [] ∨ cs = [Shot.running_show_stop])).
Proof.
  intros Hne Hout. unfold Shot.jump.
  rewrite andb_false_r. rewrite bool_decide_eq_false_2 by done.
  unfold Shot._update_show. simpl. split.
  - intros Hshown.
    assert (negb (Shot.enabled s) && negb (Shot.show_when_disabled (Shot.profile s)) = false)
      as -> by (destruct Hshown as [-> | ->]; [done|apply andb_false_r]).
    by rewrite (index_out_of_range _ _ Hout).
  - intros -> ->. simpl. unfold Shot._stop_show. simpl.
    destruct (Shot.running_show s) eqn:Hrs.
    + eexists. split; [reflexivity|by right].
    + exists []. split; [|by left]. do 2 f_equal.
      destruct s; simpl in *; by subst.
Qed.

Lemma shot_jump_target_is_unchecked_witness :
  Shot.jump shot_env 3 true (shot_at (shot_profile "default" false) 0)
  = Py.Raise Py.IndexError.
Proof.
  apply (shot_jump_target_is_unchecked shot_env 3
           (shot_at (shot_profile "default" false) 0)).
  - simpl. lia.
  - simpl. lia.
  - by left.
Defined.

(** ** Further properties: external shows *)

Lemma zip_lookup {A B : Type} (a : list A) (b : list B) (i : nat) (x : A) (y : B) :
  a !! i = Some x → b !! i = Some y → Py.zip a b !! i = Some (x, y).
Proof.
  revert b i. induction a as [|x' a IH]; intros [|y' b] [|i] Ha Hb;
    simplify_eq/=; [done|]. by apply IH.
Qed.

Lemma zip_length {A B : Type} (a : list A) (b : list B) :
  length (Py.zip a b) = (length a `min` length b)%nat.
Proof.
  revert b. induction a as [|x a IH]; intros [|y b]; simpl; [done..|].
  by rewrite IH.
Qed.

Lemma chars_length (s : string) : length (Py.chars s) = String.length s.
Proof. induction s as [|c s IH]; simpl; [done|]. by rewrite IH. Qed.

(** Every item of [zip(devices, data)] has a one-character string, which is
    true, so that filtering on it keeps the item. *)
Lemma zip_chars_all_truthy {A : Type} (l : list A) (data : string) :
  map fst (filter (λ x : A * string, Py.str_truthy x.2) (Py.zip l (Py.chars data)))
  = take (String.length data) l.
Proof.
  revert l. induction data as [|c data IH]; intros [|d l]; [done..|].
  cbn [Py.chars Py.zip]. rewrite filter_cons_True by done. simpl. by rewrite IH.
Qed.

(** [update_leds] pairs the show's LEDs with the six-character chunks of the
    data in list order: LED number [i] gets the colour of chunk number [i],
    at the show's priority and blend setting and without a fade.  Whichever
    of the two lists is longer has its remainder ignored without an error. *)
Theorem external_update_leds_pairs_in_order (K : Codec) (es : ExternalShow)
    (data : string) :
  length (update_leds K es data)
  = (length (es_leds es) `min` length (chunker K data 6))%nat
  ∧ ∀ (i : nat) led chunk,
      es_leds es !! i = Some led → chunker K data 6 !! i = Some chunk →
      update_leds K es data !! i
      = Some (ext_add_to_led_update_list led (hex_to_rgb K chunk) 0 (es_priority es)
                (es_blend es)).
Proof.
  unfold update_leds. split.
  - by rewrite length_map, zip_length.
  - intros i led chunk Hled Hchunk.
    by rewrite list_lookup_fmap, (zip_lookup _ _ i led chunk Hled Hchunk).
Qed.

(** [update_flashers] and [update_coils] test each character of the data for
    truth, and a one-character string is always true: the first
    [len(data)] devices of the show are all flashed or pulsed, whatever the
    characters are, a ["0"] included. *)
Theorem external_flashers_and_coils_ignore_the_data (es : ExternalShow) (data : string) :
  update_flashers es data
  = map ext__add_to_flasher_queue (take (String.length data) (es_flashers es))
  ∧ update_coils es data
    = map ext__add_to_coil_queue (take (String.length data) (es_coils es)).
Proof.
  unfold update_flashers, update_coils.
  rewrite <- !zip_chars_all_truthy, <- !list_fmap_compose. done.
Qed.

(** A start command for a name that already runs is dropped: the show that
    was started first stays, with its devices, priority and blend setting.
    Other names are not touched either way. *)
Theorem external_start_does_not_replace (name : string) (es1 es2 : ExternalShow)
    (c : ShowController) :
  _process_external_show_start_command name es2
    (_process_external_show_start_command name es1 c)
  = _process_external_show_start_command name es1 c
  ∧ is_Some (running_external_show_keys
               (_process_external_show_start_command name es1 c) !! name)
  ∧ ∀ other, other ≠ name →
      running_external_show_keys (_process_external_show_start_command name es1 c)
        !! other
      = running_external_show_keys c !! other.
Proof.
  unfold _process_external_show_start_command.
  destruct (running_external_show_keys c !! name) as [es|] eqn:Hname.
  - rewrite Hname. split_and!; [done|by eexists|done].
  - simpl. rewrite lookup_insert_eq. split_and!; [done|by eexists|].
    intros other Hne. by rewrite lookup_insert_ne.
Qed.

Lemma foldl_restore_sublist (E : Env) (p : Z) (l : list dev) (w : World) :
  (let w' := foldl (restore_led E p) w l in
   sc w' = sc w ∧ shows w' = shows w
   ∧ ∃ cs, log w' = log w ++ cs ∧ cs `sublist_of` map led_restore l)
  ∧ (let w' := foldl (restore_light E p) w l in
     sc w' = sc w ∧ shows w' = shows w
     ∧ ∃ cs, log w' = log w ++ cs ∧ cs `sublist_of` map light_restore l).
Proof.
  revert w. induction l as [|x l IH]; intros w; simpl.
  - split; (split_and!; [done|done|]; exists []; by rewrite app_nil_r).
  - split.
    + destruct (IH (restore_led E p w x)) as [(Hsc & Hsh & cs & Hlog & Hsub) _].
      rewrite Hsc, Hsh, Hlog. unfold restore_led. case_bool_decide; simpl.
      * split_and!; [done|done|]. exists (led_restore x :: cs).
        split; [by rewrite <- app_assoc|by apply sublist_skip].
      * split_and!; [done|done|]. exists cs. split; [done|by apply sublist_cons].
    + destruct (IH (restore_light E p w x)) as [_ (Hsc & Hsh & cs & Hlog & Hsub)].
      rewrite Hsc, Hsh, Hlog. unfold restore_light. case_bool_decide; simpl.
      * split_and!; [done|done|]. exists (light_restore x :: cs).
        split; [by rewrite <- app_assoc|by apply sublist_skip].
      * split_and!; [done|done|]. exists cs. split; [done|by apply sublist_cons].
Qed.

(** A stop command for a running external show removes that name only and
    leaves the rest of the controller and the shows as they were.  The only
    calls it makes are [restore()] on the show's own LEDs and then on its own
    lights, in list order and at most one per listing.  A second stop command
    for the name does nothing. *)
Theorem external_stop_restores_own_devices (E : Env) (name : string) (es : ExternalShow)
    (w : World) :
  running_external_show_keys (sc w) !! name = Some es →
  let w' := _process_external_show_stop_command E name w in
  sc w' = set_running_external_show_keys (delete name (running_external_show_keys (sc w)))
            (sc w)
  ∧ shows w' = shows w
  ∧ (∃ cs, log w' = log w ++ cs
           ∧ cs `sublist_of` map led_restore (es_leds es)
                             ++ map light_restore (es_lights es))
  ∧ _process_external_show_stop_command E name w' = w'.
Proof.
  intros Hname. cbv zeta.
  assert (_process_external_show_stop_command E name w
          = with_sc (λ c, set_running_external_show_keys
                            (delete name (running_external_show_keys c)) c)
              (external_show_stop E es w)) as Hstop
    by (unfold _process_external_show_stop_command; by rewrite Hname).
  unfold external_show_stop in Hstop.
  destruct (foldl_restore_sublist E (es_priority es) (es_leds es) w)
    as [(Hsc1 & Hsh1 & cs1 & Hlog1 & Hsub1) _].
  set (w1 := foldl (restore_led E (es_priority es)) w (es_leds es)) in *. clearbody w1.
  destruct (foldl_restore_sublist E (es_priority es) (es_lights es) w1)
    as [_ (Hsc2 & Hsh2 & cs2 & Hlog2 & Hsub2)].
  set (w2 := foldl (restore_light E (es_priority es)) w1 (es_lights es)) in *.
  clearbody w2.
  rewrite Hstop. simpl. rewrite Hsc2, Hsc1, Hsh2, Hsh1, Hlog2, Hlog1.
  split_and!; [done|done| |].
  - exists (cs1 ++ cs2). split; [by rewrite app_assoc|by apply sublist_app].
  - unfold _process_external_show_stop_command. simpl.
    rewrite Hsc2, Hsc1. simpl. by rewrite lookup_delete_eq.
Qed.

Lemma external_stop_restores_own_devices_witness :
  let w := with_sc (_process_external_show_start_command "show" external_show_example)
             World_init in
  running_external_show_keys (sc (_process_external_show_stop_command quiet_env "show" w))
  = delete "show" (running_external_show_keys (sc w)).
Proof.
  cbv zeta.
  destruct (external_stop_restores_own_devices quiet_env "show" external_show_example
              (with_sc (_process_external_show_start_command "show" external_show_example)
                 World_init)) as (Hsc & _).
  - vm_compute. reflexivity.
  - cbv zeta in Hsc. rewrite Hsc. reflexivity.
Defined.

(** ** Further properties: ending a show *)

(** [restore_lower_lights] makes calls only: the controller and the shows
    stay as they are. *)
Lemma restore_lower_lights_frame (E : Env) (show : show_id) (w : World) :
  sc (restore_lower_lights E show w) = sc w
  ∧ shows (restore_lower_lights E show w) = shows w.
Proof.
  unfold restore_lower_lights.
  destruct (foldl_restore_sublist E (Show.priority (shows w show))
              (Show.light_states (shows w show)) w) as [_ (A1 & A2 & _)].
  set (w1 := foldl (restore_light E _) w _) in *. clearbody w1.
  destruct (foldl_restore_sublist E (Show.priority (shows w show))
              (Show.led_states (shows w1 show)) w1) as [(B1 & B2 & _) _].
  cbv zeta in B1, B2.
  set (w2 := foldl (restore_led E _) w1 _) in *. clearbody w2.
  destruct (foldl_resync_lower E (Show.priority (shows w show))
              (running_shows (sc w2)) w2) as (C1 & C2 & _).
  cbv zeta in C1, C2. rewrite C1, C2, B1, B2, A1, A2. done.
Qed.

(** What [_end_show] leaves, whatever the devices do.  The show is out of
    the running set, whose other members keep their order, and out of
    [running_show_keys]; nothing else of the controller changes.  The show is
    marked not running and is back at step 0 when [reset] (or, by default,
    the show's own [reset]) says so; no other show is touched.  A show that
    holds restores nothing: its callback, if any, is the only call. *)
Theorem end_show_leaves_running_set (E : Env) (show : show_id) (reset : option bool)
    (w : World) :
  let w' := _end_show E show reset w in
  sc w' = set_running_show_keys
            (filter (λ kv, kv.2 ≠ show) (running_show_keys (sc w)))
            (set_running_shows (filter (λ x, x ≠ show) (running_shows (sc w))) (sc w))
  ∧ show ∉ running_shows (sc w')
  ∧ Show.running (shows w' show) = false
  ∧ (default (Show.reset (shows w show)) reset = true →
     Show.current_step (shows w' show) = 0)
  ∧ (∀ other, other ≠ show → shows w' other = shows w other)
  ∧ (Show.hold (shows w show) = true →
     log w' = log w ++ match Show.callback (shows w show) with
                       | Some cb => [show_callback show cb]
                       | None => []
                       end).
Proof.
  cbv zeta. unfold _end_show. cbv zeta.
  set (w0 := with_sc _ w).
  assert (shows w0 = shows w) as Hs0 by done.
  assert (log w0 = log w) as Hl0 by done.
  assert (sc w0 = set_running_shows (filter (λ x, x ≠ show) (running_shows (sc w))) (sc w))
    as Hc0 by done.
  clearbody w0.
  set (w1 := if Show.hold (shows w0 show) then w0 else restore_lower_lights E show w0).
  assert (sc w1 = sc w0 ∧ shows w1 = shows w0) as [Hc1 Hs1].
  { unfold w1. destruct (Show.hold (shows w0 show)); [done|].
    apply restore_lower_lights_frame. }
  assert (Show.hold (shows w show) = true → log w1 = log w) as Hl1.
  { unfold w1. rewrite Hs0. by intros ->. }
  clearbody w1. rewrite Hs1, Hs0.
  assert (default (Show.reset (shows w show)) reset
          = match reset with Some r => r | None => Show.reset (shows w show) end) as Hd
    by (by destruct reset).
  rewrite <- Hd. clear Hd.
  set (w2 := if default (Show.reset (shows w show)) reset
             then with_show show (Show.set_current_step 0) w1 else w1).
  assert (sc w2 = sc w1 ∧ log w2 = log w1
          ∧ (∀ other, other ≠ show → shows w2 other = shows w1 other)
          ∧ Show.callback (shows w2 show) = Show.callback (shows w1 show)
          ∧ (default (Show.reset (shows w show)) reset = true →
             Show.current_step (shows w2 show) = 0)) as (Hc2 & Hl2 & Ho2 & Hcb2 & Hst2).
  { unfold w2. destruct (default (Show.reset (shows w show)) reset); simpl.
    - split_and!; [done|done| | |]; intros; rewrite ?fn_lookup_insert;
        rewrite ?fn_lookup_insert_ne by done; done.
    - split_and!; done. }
  clearbody w2.
  set (w3 := with_sc _ (with_show show (Show.set_running false) w2)).
  assert (sc w3 = set_running_show_keys
                    (filter (λ kv, kv.2 ≠ show) (running_show_keys (sc w2))) (sc w2)
          ∧ shows w3 = <[show := Show.set_running false (shows w2 show)]> (shows w2)
          ∧ log w3 = log w2) as (Hc3 & Hs3 & Hl3) by done.
  clearbody w3.
  assert (Show.callback (shows w3 show) = Show.callback (shows w show)) as Hcb.
  { rewrite Hs3, fn_lookup_insert. simpl. by rewrite Hcb2, Hs1, Hs0. }
  rewrite Hcb.
  set (w' := match Show.callback (shows w show) with
             | Some cb => do_call E (show_callback show cb) w3
             | None => w3
             end).
  assert (sc w' = sc w3 ∧ shows w' = shows w3
          ∧ log w' = log w3 ++ match Show.callback (shows w show) with
                               | Some cb => [show_callback show cb]
                               | None => []
                               end) as (Hc' & Hs' & Hl').
  { unfold w'. destruct (Show.callback (shows w show)); simpl; [done|].
    by rewrite app_nil_r. }
  clearbody w'.
  rewrite Hc', Hs', Hl', Hc3, Hs3, Hl3, Hl2, Hc2, Hc1, Hc0. simpl.
  split_and!.
  - reflexivity.
  - intros [Hne _]%list_elem_of_filter. by apply Hne.
  - by rewrite fn_lookup_insert.
  - intros Hr. rewrite fn_lookup_insert. simpl. by apply Hst2.
  - intros other Hne. rewrite fn_lookup_insert_ne by done.
    by rewrite Ho2, Hs1, Hs0.
  - intros Hh. by rewrite (Hl1 Hh).
Qed.

(** Playing a show that is not running and ending it again gives back the
    running set it was added to, and leaves the show marked not running. *)
Theorem run_then_end_show_round_trip (E : Env) (show : show_id) (reset : option bool)
    (w : World) :
  show ∉ running_shows (sc w) →
  let w' := _end_show E show reset (_run_show show w) in
  running_shows (sc w') ≡ₚ running_shows (sc w)
  ∧ Show.running (shows (_run_show show w) show) = true
  ∧ Show.running (shows w' show) = false.
Proof.
  intros Hout. cbv zeta.
  destruct (end_show_leaves_running_set E show reset (_run_show show w))
    as (Hsc & _ & Hrun & _).
  cbv zeta in Hsc, Hrun. rewrite Hsc. simpl.
  split_and!; [|by apply run_show_fresh|exact Hrun].
  rewrite (run_show_shows show w), bool_decide_eq_false_2 by done.
  rewrite filter_app, filter_cons_False, filter_nil, app_nil_r by (by intros H; apply H).
  assert (∀ l : list show_id, show ∉ l → filter (λ x, x ≠ show) l = l) as Hkeep.
  { induction l as [|x l IH]; intros Hl; [done|].
    rewrite filter_cons_True by (intros ->; apply Hl; by left).
    f_equal. apply IH. intros Hin. apply Hl. by right. }
  by rewrite Hkeep.
Qed.

Lemma run_then_end_show_round_trip_witness :
  running_shows (sc (_end_show quiet_env 1%nat None (_run_show 1%nat World_init)))
  ≡ₚ running_shows (sc World_init).
Proof.
  apply (run_then_end_show_round_trip quiet_env 1%nat None World_init).
  simpl. apply not_elem_of_nil.
Defined.

(** ** Further properties: the event queue is a set *)

Lemma posted_events_none {A : Type} (f : A → call) (l : list A) :
  (∀ x, posted_event (f x) = None) → posted_events (map f l) = [].
Proof.
  intros Hf. unfold posted_events. induction l as [|x l IH]; simpl; [done|].
  by rewrite Hf.
Qed.

Lemma posted_events_sublist (cs cs' : list call) :
  cs `sublist_of` cs' → posted_events cs' = [] → posted_events cs = [].
Proof.
  unfold posted_events. induction 1 as [|x l1 l2 _ IH|x l1 l2 _ IH]; simpl; [done| |].
  - destruct (posted_event x); [done|]. exact IH.
  - destruct (posted_event x); [done|]. exact IH.
Qed.

Lemma posted_events_app (cs cs' : list call) :
  posted_events (cs ++ cs') = posted_events cs ++ posted_events cs'.
Proof. apply omap_app. Qed.

Lemma posted_events_posts (l : list string) : posted_events (map events_post l) = l.
Proof. induction l as [|e l IH]; simpl; [done|]. by rewrite IH. Qed.

(** The events one [_do_update] posts are the members of the event queue. *)
Lemma posted_events_flush (E : Env) (σ : Devices) (c : ShowController) :
  posted_events (flush_calls E σ c) = elements (event_queue c).
Proof.
  unfold flush_calls, coil_calls. rewrite !posted_events_app.
  rewrite posted_events_posts.
  rewrite (posted_events_sublist _ _ (led_calls_sublist _ _ _))
    by (by apply posted_events_none).
  rewrite !posted_events_none by done.
  simpl. by rewrite app_nil_r.
Qed.

(** An event enqueued twice before an update is posted once by it: the
    event queue is a set. *)
Theorem event_queued_twice_is_posted_once (E : Env) (w : World) (e : string) :
  let w2 := with_sc (add_to_event_queue e) (with_sc (add_to_event_queue e) w) in
  w2 = with_sc (add_to_event_queue e) w
  ∧ ∃ cs, log (_do_update E w2) = log w ++ cs
          ∧ length (filter (λ x, x = e) (posted_events cs)) = 1%nat.
Proof.
  cbv zeta. split.
  - unfold with_sc, add_to_event_queue. simpl. f_equal. unfold set_event_queue. simpl.
    f_equal. set_solver.
  - eexists. split; [by destruct (do_update_spec E
      (with_sc (add_to_event_queue e) (with_sc (add_to_event_queue e) w))) as [_ ->]|].
    rewrite posted_events_flush. apply count_one; [apply NoDup_elements|].
    apply elem_of_elements. simpl. set_solver.
Qed.
